(** * strava-api: the OAuth2 authorization-code client

    A shallow embedding of [src/client] (class [Client]) and of the
    declarations of [src/types/token.ts], together with the properties of
    the scope validation, the configuration check, the authorization URI
    and the token exchange.

    Strings are sequences of bytes: a JavaScript string is represented by
    its UTF-8 encoding.  The separators the client works with (comma,
    ampersand, equals sign, question mark, hash) are ASCII, so joining,
    splitting and comparing agree on both representations. *)

From Stdlib Require Import String Ascii List Bool Arith ZArith Lia.
From Stdlib Require Import Permutation DecimalString.
Import ListNotations.

Local Open Scope list_scope.
Local Open Scope string_scope.

(** ** JavaScript strings and arrays *)

Module Js.

(** [s] holds no occurrence of the character [c]. *)
Fixpoint no_char (c : ascii) (s : string) : bool :=
  match s with
  | EmptyString => true
  | String a rest => negb (Ascii.eqb a c) && no_char c rest
  end.

(** The pieces of [s] between the occurrences of [sep]: the first piece
    and the pieces after it.  There is always a first piece. *)
Fixpoint split_pieces (sep : ascii) (s : string) : string * list string :=
  match s with
  | EmptyString => (EmptyString, [])
  | String a rest =>
      let (piece, pieces) := split_pieces sep rest in
      if Ascii.eqb a sep then (EmptyString, piece :: pieces)
      else (String a piece, pieces)
  end.

(** [String.prototype.split] with a separator of one character. *)
Definition String_split (sep : ascii) (s : string) : list string :=
  let (piece, pieces) := split_pieces sep s in piece :: pieces.

(** [Array.prototype.join] on an array of strings. *)
Definition Array_join (sep : string) (a : list string) : string :=
  String.concat sep a.

(** [Array.prototype.includes] on an array of strings. *)
Definition Array_includes (a : list string) (x : string) : bool :=
  existsb (String.eqb x) a.

(** [s] up to the first occurrence of [d], and what follows that
    occurrence when there is one. *)
Fixpoint cut_at (d : ascii) (s : string) : string * option string :=
  match s with
  | EmptyString => (EmptyString, None)
  | String a rest =>
      if Ascii.eqb a d then (EmptyString, Some rest)
      else let (before, after) := cut_at d rest in (String a before, after)
  end.

(** Every character of [s] satisfies [p]. *)
Fixpoint all_chars (p : ascii -> bool) (s : string) : bool :=
  match s with
  | EmptyString => true
  | String c rest => p c && all_chars p rest
  end.

End Js.

(** ** Errors *)

(** What a call throws: an [Error] carrying its message, or the
    [TypeError] the runtime raises (reading a property of [undefined],
    an invalid URL). *)
Inductive JsError : Type :=
| Error (message : string)
| TypeError.

Inductive result (A : Type) : Type :=
| Ok (a : A)
| Throw (e : JsError).

Arguments Ok {A} a.
Arguments Throw {A} e.

(** ** The platform's URL class

    [URL] and [URLSearchParams] of the [url] module, as far as the client
    uses them: construction with or without a base, [searchParams.append],
    [searchParams.get] and [href].  The treatment of the query and of the
    fragment is written out; the resolution of scheme, authority and path
    is the platform's and is taken as the function [resolve]. *)

Module Url.

Definition byte (c : ascii) : N := N_of_ascii c.

Definition in_range (lo hi : N) (c : ascii) : bool :=
  (lo <=? byte c)%N && (byte c <=? hi)%N.

Definition is_alphanumeric (c : ascii) : bool :=
  in_range 48 57 c || in_range 65 90 c || in_range 97 122 c.

(** The digit of value [n < 16], in upper case. *)
Definition hex_digit (n : N) : ascii :=
  if (n <? 10)%N then ascii_of_N (48 + n) else ascii_of_N (55 + n).

Definition hex_value (c : ascii) : option N :=
  if in_range 48 57 c then Some (byte c - 48)%N
  else if in_range 65 70 c then Some (byte c - 55)%N
  else if in_range 97 102 c then Some (byte c - 87)%N
  else None.

(** [%XX] for the byte [c]. *)
Definition percent_encode_byte (c : ascii) : string :=
  String "%" (String (hex_digit (byte c / 16)) (String (hex_digit (byte c mod 16)) EmptyString)).

(** The bytes the application/x-www-form-urlencoded serializer leaves as
    they are: ASCII alphanumerics, [*], [-], [.] and [_]. *)
Definition urlencoded_safe (c : ascii) : bool :=
  is_alphanumeric c
  || Ascii.eqb c "*" || Ascii.eqb c "-" || Ascii.eqb c "." || Ascii.eqb c "_".

(** Percent-encoding of a name or value by the serializer: a space
    becomes [+]. *)
Fixpoint urlencoded_encode (s : string) : string :=
  match s with
  | EmptyString => EmptyString
  | String c rest =>
      if Ascii.eqb c " " then String "+" (urlencoded_encode rest)
      else if urlencoded_safe c then String c (urlencoded_encode rest)
      else percent_encode_byte c ++ urlencoded_encode rest
  end.

Definition urlencoded_pair (p : string * string) : string :=
  urlencoded_encode (fst p) ++ "=" ++ urlencoded_encode (snd p).

(** The application/x-www-form-urlencoded serializer. *)
Definition urlencoded_serialize (l : list (string * string)) : string :=
  Js.Array_join "&" (map urlencoded_pair l).

Fixpoint plus_to_space (s : string) : string :=
  match s with
  | EmptyString => EmptyString
  | String c rest =>
      String (if Ascii.eqb c "+" then " "%char else c) (plus_to_space rest)
  end.

(** Percent-decoding: [%] followed by two hexadecimal digits is the byte
    they denote; any other byte stands for itself. *)
Fixpoint percent_decode (s : string) : string :=
  match s with
  | EmptyString => EmptyString
  | String c rest =>
      if Ascii.eqb c "%" then
        match rest with
        | String h1 (String h2 rest') =>
            match hex_value h1, hex_value h2 with
            | Some a, Some b =>
                String (ascii_of_N (16 * a + b)) (percent_decode rest')
            | _, _ => String c (percent_decode rest)
            end
        | _ => String c (percent_decode rest)
        end
      else String c (percent_decode rest)
  end.

(** *** UTF-8 decoding

    The decoder of the form-urlencoded parser turns bytes into a string
    and puts U+FFFD where the bytes are not well formed.  On the UTF-8
    representation this is a map from byte sequences to well-formed byte
    sequences. *)

Record utf8_state : Type :=
  { needed : nat;        (* continuation bytes still expected *)
    lower : N;           (* bounds of the next continuation byte *)
    upper : N;
    seen : string }.     (* the bytes of the sequence read so far *)

Definition utf8_initial : utf8_state :=
  {| needed := 0; lower := 128; upper := 191; seen := EmptyString |}.

(** U+FFFD. *)
Definition replacement : string :=
  String (ascii_of_N 239) (String (ascii_of_N 191) (String (ascii_of_N 189) EmptyString)).

Definition one (c : ascii) : string := String c EmptyString.

(** A byte read while no sequence is open. *)
Definition utf8_start (c : ascii) : string * utf8_state :=
  let b := byte c in
  if (b <=? 127)%N then (one c, utf8_initial)
  else if in_range 194 223 c then
    (EmptyString, {| needed := 1; lower := 128; upper := 191; seen := one c |})
  else if in_range 224 239 c then
    (EmptyString,
     {| needed := 2;
        lower := if (b =? 224)%N then 160%N else 128%N;
        upper := if (b =? 237)%N then 159%N else 191%N;
        seen := one c |})
  else if in_range 240 244 c then
    (EmptyString,
     {| needed := 3;
        lower := if (b =? 240)%N then 144%N else 128%N;
        upper := if (b =? 244)%N then 143%N else 191%N;
        seen := one c |})
  else (replacement, utf8_initial).

(** One byte of input: what is emitted and the next state.  A byte that
    cannot continue the open sequence closes it with U+FFFD and is read
    again as the start of a sequence. *)
Definition utf8_step (st : utf8_state) (c : ascii) : string * utf8_state :=
  match needed st with
  | O => utf8_start c
  | S k =>
      if in_range (lower st) (upper st) c then
        match k with
        | O => (seen st ++ one c, utf8_initial)
        | S _ =>
            (EmptyString,
             {| needed := k; lower := 128; upper := 191; seen := seen st ++ one c |})
        end
      else
        let (out, st') := utf8_start c in (replacement ++ out, st')
  end.

Fixpoint utf8_run (st : utf8_state) (s : string) : string :=
  match s with
  | EmptyString =>
      match needed st with O => EmptyString | S _ => replacement end
  | String c rest =>
      let (out, st') := utf8_step st c in out ++ utf8_run st' rest
  end.

(** UTF-8 decode without BOM, on the UTF-8 representation. *)
Definition utf8_decode (s : string) : string := utf8_run utf8_initial s.

(** [s] represents a JavaScript string: it is well-formed UTF-8. *)
Definition well_formed (s : string) : bool := String.eqb (utf8_decode s) s.

(** *** The application/x-www-form-urlencoded parser *)

Definition urlencoded_decode (s : string) : string :=
  utf8_decode (percent_decode (plus_to_space s)).

Definition parse_sequence (bytes : string) : string * string :=
  let (name, value) := Js.cut_at "=" bytes in
  (urlencoded_decode name,
   urlencoded_decode (match value with Some v => v | None => EmptyString end)).

Definition non_empty (s : string) : bool :=
  match s with EmptyString => false | String _ _ => true end.

Definition urlencoded_parse (input : string) : list (string * string) :=
  map parse_sequence (filter non_empty (Js.String_split "&" input)).

(** *** Preparing the input of the URL parser *)

Definition is_c0_or_space (c : ascii) : bool := (byte c <=? 32)%N.

Definition is_tab_or_newline (c : ascii) : bool :=
  (byte c =? 9)%N || (byte c =? 10)%N || (byte c =? 13)%N.

Fixpoint strip_leading (s : string) : string :=
  match s with
  | EmptyString => EmptyString
  | String c rest => if is_c0_or_space c then strip_leading rest else s
  end.

Fixpoint strip_trailing (s : string) : string :=
  match s with
  | EmptyString => EmptyString
  | String c rest =>
      match strip_trailing rest with
      | EmptyString => if is_c0_or_space c then EmptyString else one c
      | kept => String c kept
      end
  end.

Fixpoint remove_tab_newline (s : string) : string :=
  match s with
  | EmptyString => EmptyString
  | String c rest =>
      if is_tab_or_newline c then remove_tab_newline rest
      else String c (remove_tab_newline rest)
  end.

Definition prepare (input : string) : string :=
  remove_tab_newline (strip_trailing (strip_leading input)).

(** The fragment percent-encode set: C0 controls, bytes above [~],
    space, double quote, [<], [>] and the backquote. *)
Definition in_fragment_set (c : ascii) : bool :=
  (byte c <=? 31)%N || (126 <? byte c)%N
  || (byte c =? 32)%N || (byte c =? 34)%N || (byte c =? 60)%N
  || (byte c =? 62)%N || (byte c =? 96)%N.

Fixpoint fragment_encode (s : string) : string :=
  match s with
  | EmptyString => EmptyString
  | String c rest =>
      (if in_fragment_set c then percent_encode_byte c else one c)
      ++ fragment_encode rest
  end.

(** *** URL objects *)

(** A URL object.  [prefix] is the serialization of scheme, authority
    and path.  The query is held as the list of [searchParams]: the
    parser's percent-encoding of the query is undone by the
    form-urlencoded parser, so the list is read from the query as it is
    written. *)
Record URL : Type :=
  { prefix : string;
    searchParams : list (string * string);
    fragment : option string }.

(** What the platform makes of the part of a URL before its query, given
    the prefix of the parsed base: the serialized scheme, authority and
    path, and whether the reference is empty, so that the query of the
    base is kept when the reference has none of its own. *)
Record Resolved : Type :=
  { resolved_prefix : string;
    keeps_base_query : bool }.

Section Parser.

Variable resolve : string -> option string -> option Resolved.

(** The basic URL parser on [input] with an optional parsed base. *)
Definition parse (input : string) (base : option URL) : option URL :=
  let (before_fragment, frag) := Js.cut_at "#" (prepare input) in
  let (before_query, query) := Js.cut_at "?" before_fragment in
  match resolve before_query (option_map prefix base) with
  | None => None
  | Some r =>
      Some {| prefix := resolved_prefix r;
              searchParams :=
                match query with
                | Some q => urlencoded_parse q
                | None =>
                    if keeps_base_query r
                    then match base with Some b => searchParams b | None => [] end
                    else []
                end;
              fragment := option_map fragment_encode frag |}
  end.

(** [new URL(input)] and [new URL(input, base)]. *)
Definition new_URL (input : string) (base : option string) : result URL :=
  match base with
  | None =>
      match parse input None with
      | Some u => Ok u
      | None => Throw TypeError
      end
  | Some b =>
      match parse b None with
      | None => Throw TypeError
      | Some parsed_base =>
          match parse input (Some parsed_base) with
          | Some u => Ok u
          | None => Throw TypeError
          end
      end
  end.

End Parser.

(** [url.searchParams.append(name, value)]: the pair goes to the end of
    the list, and the query of the URL is rewritten from the list. *)
Definition searchParams_append (u : URL) (name value : string) : URL :=
  {| prefix := prefix u;
     searchParams := (searchParams u ++ [(name, value)])%list;
     fragment := fragment u |}.

(** [url.searchParams.get(name)]: the value of the first pair of that
    name, [null] when there is none. *)
Fixpoint searchParams_lookup (l : list (string * string)) (name : string)
  : option string :=
  match l with
  | [] => None
  | (n, v) :: rest => if String.eqb n name then Some v else searchParams_lookup rest name
  end.

Definition searchParams_get (u : URL) (name : string) : option string :=
  searchParams_lookup (searchParams u) name.

(** [url.href], the URL serializer, for a URL whose query is the
    serialization of its list (an empty list leaves no query). *)
Definition href (u : URL) : string :=
  prefix u
  ++ match searchParams u with
     | [] => EmptyString
     | _ :: _ => "?" ++ urlencoded_serialize (searchParams u)
     end
  ++ match fragment u with
     | None => EmptyString
     | Some f => "#" ++ f
     end.

End Url.

(** ** Data model *)

(** Modelled from the spec: the [Scope] type of [src/types/scope], which
    is not among the sources: "an enumerated string identifier (e.g.
    "read", "activity:read_all")", "represented externally as a
    comma-separated list".  At run time a scope is a string;
    [is_scope_identifier] holds of every string without the separator of
    that list, so of every member of the enumeration. *)
Definition Scope : Type := string.

Definition is_scope_identifier (s : Scope) : bool := Js.no_char "," s.

(** [clientId: string | number].  A number is an integer identifier. *)
Inductive ClientId : Type :=
| IdString (s : string)
| IdNumber (n : Z).

(** Modelled from the spec: the configuration types of [src/types/config],
    which are not among the sources: "clientId (string|number),
    clientSecret (string), redirectUri (string), authorizationUri
    (string), tokenUri (string), scopes (ordered sequence of scope
    identifiers)".  A property that an object does not have reads as
    [undefined], here [None]. *)
Record ClientConfig : Type :=
  { clientId : option ClientId;
    clientSecret : option string;
    redirectUri : option string;
    authorizationUri : option string;
    tokenUri : option string;
    scopes : option (list Scope) }.

Definition ClientConstructorConfig : Type := ClientConfig.

(** [ParamObject] of [src/types/token.ts]. *)
Record ParamObject : Type :=
  { code : string;
    state : string;
    scope : string }.

(** The object [getToken] builds from the query of the callback URL,
    before [assertIsParamObj] has narrowed it: [searchParams.get] answers
    [null] for a parameter that is not there. *)
Record RawParamObject : Type :=
  { raw_state : option string;
    raw_code : option string;
    raw_scope : option string }.

(** [TokenResponse] of [src/types/token.ts]; [A] is [SummaryAthlete], which
    the client hands on unread. *)
Record TokenResponse (A : Type) : Type :=
  { token_type : string;
    expires_at : Z;
    expires_in : Z;
    refresh_token : string;
    access_token : string;
    athlete : A }.

Arguments token_type {A} _.
Arguments expires_at {A} _.
Arguments expires_in {A} _.
Arguments refresh_token {A} _.
Arguments access_token {A} _.
Arguments athlete {A} _.

(** Modelled from the spec: the class [Token] of [src/client/token], which
    is not among the sources: "token_type (fixed literal "Bearer"),
    expires_at (epoch seconds), expires_in (seconds), refresh_token,
    access_token, athlete"; "construction requires all six fields". *)
Record Token (A : Type) : Type :=
  new_Token
    { tok_token_type : string;
      tok_expires_at : Z;
      tok_expires_in : Z;
      tok_refresh_token : string;
      tok_access_token : string;
      tok_athlete : A }.

Arguments new_Token {A} _ _ _ _ _ _.

(** A value in the body of a request. *)
Inductive JsValue : Type :=
| JsUndefined
| JsString (s : string)
| JsNumber (n : Z).

(** A request handed to the HTTP collaborator: [axios.post(url, data)]. *)
Record Request : Type :=
  { method : string;
    url : option string;
    data : list (string * JsValue) }.

(** ** What the client imports

    The default configuration, the two assertions of [./helpers], the
    HTTP collaborator and the platform's resolution of URL prefixes.
    [axios_post] is given the requests issued so far and the new one; it
    answers with the data of the response or throws. *)
Class Platform : Type :=
  { SummaryAthlete : Type;
    ResponseData : Type;
    defaultConfig : ClientConfig;
    url_resolve : string -> option string -> option Url.Resolved;
    assertIsParamObj : RawParamObject -> result ParamObject;
    assertValidTokenResponse : ResponseData -> result (TokenResponse SummaryAthlete);
    axios_post : list Request -> Request -> result ResponseData }.

(** ** State and effects *)

(** An instance of the class. *)
Record Client : Type :=
  { config : ClientConfig }.

(** The state a method runs in: the instance it is called on and the
    requests that have gone to the network, oldest first. *)
Record World : Type :=
  { this : Client;
    requests : list Request }.

(** A method body: it ends with a value or a thrown error, and leaves a
    state. *)
Definition M (A : Type) : Type := World -> result A * World.

Definition ret {A : Type} (a : A) : M A := fun w => (Ok a, w).

Definition throw {A : Type} (e : JsError) : M A := fun w => (Throw e, w).

Definition bind {A B : Type} (m : M A) (k : A -> M B) : M B :=
  fun w =>
    match m w with
    | (Ok a, w') => k a w'
    | (Throw e, w') => (Throw e, w')
    end.

Notation "x <- m ;; k" := (bind m (fun x => k))
  (at level 61, m at next level, right associativity).
Notation "m ;;; k" := (bind m (fun _ => k))
  (at level 61, right associativity).

Definition lift {A : Type} (r : result A) : M A :=
  match r with
  | Ok a => ret a
  | Throw e => throw e
  end.

(** [this.config]. *)
Definition this_config : M ClientConfig := fun w => (Ok (config (this w)), w).

(** [await axios.post(url, data)]: the request is recorded, and the answer
    of the collaborator is the outcome. *)
Definition post `{Platform} (u : option string) (body : list (string * JsValue))
  : M ResponseData :=
  fun w =>
    let request := {| method := "POST"; url := u; data := body |} in
    let w' := {| this := this w; requests := (requests w ++ [request])%list |} in
    match axios_post (requests w) request with
    | Ok d => (Ok d, w')
    | Throw e => (Throw e, w')
    end.

(** ** Values of the language *)

(** [!x] for a [clientId]. *)
Definition falsy_id (x : option ClientId) : bool :=
  match x with
  | None => true
  | Some (IdString s) => String.eqb s ""
  | Some (IdNumber n) => Z.eqb n 0
  end.

(** [!x] for a string that may be missing. *)
Definition falsy_string (x : option string) : bool :=
  match x with
  | None => true
  | Some s => String.eqb s ""
  end.

(** [toString()] of a [clientId]; an integer is written in decimal. *)
Definition ClientId_toString (x : ClientId) : string :=
  match x with
  | IdString s => s
  | IdNumber n => DecimalString.NilZero.string_of_int (Z.to_int n)
  end.

(** Conversion to a string of an argument that may be [undefined]. *)
Definition to_USVString (x : option string) : string :=
  match x with
  | Some s => s
  | None => "undefined"
  end.

(** An array of strings inside a template literal. *)
Definition template_of_array (x : option (list string)) : string :=
  match x with
  | Some a => Js.Array_join "," a
  | None => "undefined"
  end.

Definition value_of_id (x : option ClientId) : JsValue :=
  match x with
  | None => JsUndefined
  | Some (IdString s) => JsString s
  | Some (IdNumber n) => JsNumber n
  end.

Definition value_of_string (x : option string) : JsValue :=
  match x with
  | None => JsUndefined
  | Some s => JsString s
  end.

(** [{ ...defaults, ...overrides }], property by property: a property of
    [overrides] wins. *)
Definition spread_property {A : Type} (d o : option A) : option A :=
  match o with
  | Some v => Some v
  | None => d
  end.

Definition spread (defaults overrides : ClientConfig) : ClientConfig :=
  {| clientId := spread_property (clientId defaults) (clientId overrides);
     clientSecret := spread_property (clientSecret defaults) (clientSecret overrides);
     redirectUri := spread_property (redirectUri defaults) (redirectUri overrides);
     authorizationUri :=
       spread_property (authorizationUri defaults) (authorizationUri overrides);
     tokenUri := spread_property (tokenUri defaults) (tokenUri overrides);
     scopes := spread_property (scopes defaults) (scopes overrides) |}.

(** ** The client: [src/client] *)

Definition RESPONSE_TYPE_CODE : string := "code".
Definition APPROVAL_PROMPT_AUTO : string := "auto".
Definition GRANT_TYPE_AUTHORIZATION_CODE : string := "authorization_code".
Definition CLIENT_ID : string := "client_id".
Definition REDIRECT_URI : string := "redirect_uri".
Definition RESPONSE_TYPE : string := "response_type".
Definition APPROVAL_PROMPT : string := "approval_prompt".
Definition SCOPE : string := "scope".
Definition STATE : string := "state".
Definition CODE : string := "code".
Definition PLACEHOLDER_URL : string := "http://localhost".

(** [scopesToString(scopes)]. *)
Definition scopesToString (scopes : list Scope) : string :=
  Js.Array_join "," scopes.

(** [stringToScopes(scope_string)]. *)
Definition stringToScopes (scope_string : string) : list Scope :=
  Js.String_split "," scope_string.

(** [validateConfig(config)]. *)
Definition validateConfig (config : ClientConstructorConfig) : result bool :=
  if falsy_id (clientId config) then
    Throw (Error "client_id must be specified")
  else if falsy_string (clientSecret config) then
    Throw (Error "client_secret must be specified")
  else Ok true.

(** [new Client(config)]: the instance, unless the constructor throws. *)
Definition constructor `{Platform} (config : ClientConstructorConfig)
  : result Client :=
  match validateConfig config with
  | Throw e => Throw e
  | Ok _ => Ok {| config := spread defaultConfig config |}
  end.

(** [getAuthorizationUri()]. *)
Definition getAuthorizationUri `{Platform} : M string :=
  cfg <- this_config ;;
  uri <- lift (Url.new_URL url_resolve (to_USVString (authorizationUri cfg)) None) ;;
  id <- match clientId cfg with
        | Some i => ret (ClientId_toString i)
        | None => throw TypeError
        end ;;
  let uri := Url.searchParams_append uri CLIENT_ID id in
  let uri := Url.searchParams_append uri REDIRECT_URI (to_USVString (redirectUri cfg)) in
  let uri := Url.searchParams_append uri RESPONSE_TYPE RESPONSE_TYPE_CODE in
  let uri := Url.searchParams_append uri APPROVAL_PROMPT APPROVAL_PROMPT_AUTO in
  csv <- match scopes cfg with
         | Some a => ret (scopesToString a)
         | None => throw TypeError
         end ;;
  let uri := Url.searchParams_append uri SCOPE csv in
  ret (Url.href uri).

(** [for (let scope of scopes) if (!this.config.scopes.includes(scope)) throw e]. *)
Fixpoint for_each_scope (requested : list Scope) (e : JsError) (scopes : list Scope)
  : M unit :=
  match scopes with
  | [] => ret tt
  | scope :: rest =>
      if negb (Js.Array_includes requested scope) then throw e
      else for_each_scope requested e rest
  end.

(** The body of the token request. *)
Definition token_request_body (cfg : ClientConfig) (param_object : ParamObject)
  : list (string * JsValue) :=
  [ ("client_id", value_of_id (clientId cfg));
    ("client_secret", value_of_string (clientSecret cfg));
    ("code", JsString (code param_object));
    ("grant_type", JsString GRANT_TYPE_AUTHORIZATION_CODE) ].

(** The error of the scope check: the template literal renders both
    arrays with commas. *)
Definition scope_error (cfg : ClientConfig) (granted : list Scope) : JsError :=
  Error ("Requested scopes " ++ template_of_array (scopes cfg)
         ++ " not granted. Got: " ++ template_of_array (Some granted)).

(** [getTokenFromObject(param_object)]. *)
Definition getTokenFromObject `{Platform} (param_object : ParamObject)
  : M (Token SummaryAthlete) :=
  cfg <- this_config ;;
  let scope_string := scope param_object in
  let granted := stringToScopes scope_string in
  let e := scope_error cfg granted in
  requested <- match scopes cfg with
               | Some a => ret a
               | None => throw TypeError
               end ;;
  (if negb (Nat.eqb (length granted) (length requested)) then throw e else ret tt) ;;;
  for_each_scope requested e granted ;;;
  res_data <- post (tokenUri cfg) (token_request_body cfg param_object) ;;
  checked <- lift (assertValidTokenResponse res_data) ;;
  ret (new_Token (token_type checked) (expires_at checked) (expires_in checked)
         (refresh_token checked) (access_token checked) (athlete checked)).

(** The object [getToken] reads from the query of a parsed callback URL. *)
Definition paramObject_of (u : Url.URL) : RawParamObject :=
  {| raw_state := Url.searchParams_get u STATE;
     raw_code := Url.searchParams_get u CODE;
     raw_scope := Url.searchParams_get u SCOPE |}.

(** [getToken(req_url)], with the base the URL is parsed against. *)
Definition getToken_with_base `{Platform} (base req_url : string)
  : M (Token SummaryAthlete) :=
  u <- lift (Url.new_URL url_resolve req_url (Some base)) ;;
  let paramObject := paramObject_of u in
  param_object <- lift (assertIsParamObj paramObject) ;;
  getTokenFromObject param_object.

(** [getToken(req_url)]. *)
Definition getToken `{Platform} (req_url : string) : M (Token SummaryAthlete) :=
  getToken_with_base PLACEHOLDER_URL req_url.

(** The state in which a method of [c] starts, nothing sent yet. *)
Definition start (c : Client) : World := {| this := c; requests := [] |}.

(** ** A platform for the examples

    It resolves URLs that are already in normal form ([http] or [https],
    a host of lower-case letters, dots and hyphens, a plain path) and
    references that start at the root; the platform's parser leaves these
    as they are.  Everything else is refused here. *)

Module Reference.

Definition host_char (c : ascii) : bool :=
  Url.in_range 97 122 c || Ascii.eqb c "." || Ascii.eqb c "-".

Definition path_char (c : ascii) : bool :=
  Url.is_alphanumeric c || Ascii.eqb c "_" || Ascii.eqb c "-".

(** A path: segments of [path_char]s, each led by a slash. *)
Fixpoint plain_path (s : string) : bool :=
  match s with
  | EmptyString => true
  | String c rest => (Ascii.eqb c "/" || path_char c) && plain_path rest
  end.

Definition rooted_path (s : string) : bool :=
  match s with
  | String "/" (String "/" _) => false
  | String "/" _ => plain_path s
  | _ => false
  end.

(** [s] without the leading [p], when it starts with [p]. *)
Fixpoint strip_prefix (p s : string) : option string :=
  match p, s with
  | EmptyString, _ => Some s
  | String a p', String b s' => if Ascii.eqb a b then strip_prefix p' s' else None
  | String _ _, EmptyString => None
  end.

(** Scheme and host of an absolute URL in normal form, and its path. *)
Definition origin_and_path (s : string) : option (string * string) :=
  let after_scheme scheme rest :=
    let (host, path) := Js.cut_at "/" rest in
    if Url.non_empty host && Js.all_chars host_char host then
      match path with
      | None => Some (scheme ++ host, "/")
      | Some p =>
          if plain_path p then Some (scheme ++ host, String "/" p) else None
      end
    else None in
  match strip_prefix "http://" s with
  | Some rest => after_scheme "http://" rest
  | None =>
      match strip_prefix "https://" s with
      | Some rest => after_scheme "https://" rest
      | None => None
      end
  end.

Definition resolve (reference : string) (base : option string)
  : option Url.Resolved :=
  match origin_and_path reference with
  | Some (origin, path) =>
      Some {| Url.resolved_prefix := origin ++ path; Url.keeps_base_query := false |}
  | None =>
      match base with
      | None => None
      | Some b =>
          match origin_and_path b with
          | None => None
          | Some (origin, _) =>
              if rooted_path reference then
                Some {| Url.resolved_prefix := origin ++ reference;
                        Url.keeps_base_query := false |}
              else if Url.non_empty reference then None
              else Some {| Url.resolved_prefix := b; Url.keeps_base_query := true |}
          end
      end
  end.

(** The provider's two endpoints. *)
Definition defaults : ClientConfig :=
  {| clientId := None;
     clientSecret := None;
     redirectUri := None;
     authorizationUri := Some "https://www.strava.com/oauth/authorize";
     tokenUri := Some "https://www.strava.com/oauth/token";
     scopes := None |}.

(** Modelled from the spec: [assertIsParamObj] of [src/client/helpers],
    which is not among the sources: the record "must contain a non-empty
    code and a well-formed scope string; otherwise rejected before any
    network call". *)
Definition assert_param (p : RawParamObject) : result ParamObject :=
  match raw_state p, raw_code p, raw_scope p with
  | Some st, Some c, Some sc =>
      if Url.non_empty c then Ok {| code := c; state := st; scope := sc |}
      else Throw (Error "invalid callback parameters")
  | _, _, _ => Throw (Error "invalid callback parameters")
  end.

(** A collaborator that answers every request with the same token. *)
Definition answer : TokenResponse nat :=
  {| token_type := "Bearer";
     expires_at := 1700000000;
     expires_in := 21600;
     refresh_token := "r1";
     access_token := "a1";
     athlete := 42%nat |}.

#[local] Instance platform : Platform :=
  {| SummaryAthlete := nat;
     ResponseData := TokenResponse nat;
     defaultConfig := defaults;
     url_resolve := resolve;
     assertIsParamObj := assert_param;
     assertValidTokenResponse := fun d => Ok d;
     axios_post := fun _ _ => Ok answer |}.

(** A configuration of a caller. *)
Definition caller : ClientConstructorConfig :=
  {| clientId := Some (IdNumber 12345);
     clientSecret := Some "s3cret";
     redirectUri := Some "http://localhost:3000/callback";
     authorizationUri := None;
     tokenUri := None;
     scopes := Some ["read"; "activity:read_all"] |}.

Definition client : Client := {| config := spread defaults caller |}.


(** The configuration of that caller with other scopes. *)
Definition configured_with (l : list Scope) : ClientConfig :=
  spread defaults
    {| clientId := Some (IdNumber 12345);
       clientSecret := Some "s3cret";
       redirectUri := Some "http://localhost:3000/callback";
       authorizationUri := None;
       tokenUri := None;
       scopes := Some l |}.

End Reference.

(** ** Notions the properties are stated with *)

(** The granted scopes agree with the requested ones: as many, and each of
    them requested. *)
Definition scopes_agree (requested granted : list Scope) : Prop :=
  length granted = length requested
  /\ forall g, In g granted -> In g requested.

(** The request of the exchange. *)
Definition token_request (cfg : ClientConfig) (param_object : ParamObject)
  : Request :=
  {| method := "POST";
     url := tokenUri cfg;
     data :=
       [ ("client_id", value_of_id (clientId cfg));
         ("client_secret", value_of_string (clientSecret cfg));
         ("code", JsString (code param_object));
         ("grant_type", JsString "authorization_code") ] |}.

(** The state once [r] has been sent. *)
Definition sent (w : World) (r : Request) : World :=
  {| this := this w; requests := (requests w ++ [r])%list |}.

(** [msg] has [part] somewhere inside. *)
Definition contains (msg part : string) : Prop :=
  exists before after, msg = before ++ part ++ after.

(** A [clientId] that is missing or falsy: absent, the empty string, or
    zero. *)
Definition id_missing_or_falsy (x : option ClientId) : Prop :=
  x = None \/ x = Some (IdString "") \/ x = Some (IdNumber 0).

(** A [clientSecret] that is missing or falsy: absent or the empty
    string. *)
Definition string_missing_or_falsy (x : option string) : Prop :=
  x = None \/ x = Some "".

(** The errors of the configuration check. *)
Definition configuration_error (e : JsError) : Prop :=
  e = Error "client_id must be specified"
  \/ e = Error "client_secret must be specified".

(** A pair whose name and value are well formed. *)
Definition well_formed_pair (p : string * string) : bool :=
  Url.well_formed (fst p) && Url.well_formed (snd p).

(** The five parameters [getAuthorizationUri] appends. *)
Definition authorization_parameters (i : ClientId) (r : string) (S : list Scope)
  : list (string * string) :=
  [ ("client_id", ClientId_toString i);
    ("redirect_uri", r);
    ("response_type", "code");
    ("approval_prompt", "auto");
    ("scope", scopesToString S) ].

(** The query the URL parser finds after the question mark of
    [reference?Q]: [Q] without trailing controls and spaces, without tabs
    and newlines, up to the first hash. *)
Definition callback_query (Q : string) : string :=
  fst (Js.cut_at "#" (Url.remove_tab_newline (Url.strip_trailing Q))).

(** The parameters that a query string holds for [getToken]. *)
Definition params_of_query (Q : string) : RawParamObject :=
  let l := Url.urlencoded_parse (callback_query Q) in
  {| raw_state := Url.searchParams_lookup l STATE;
     raw_code := Url.searchParams_lookup l CODE;
     raw_scope := Url.searchParams_lookup l SCOPE |}.

(** A character that the preparation of the input keeps and that starts
    neither a query nor a fragment. *)
Definition plain_char (c : ascii) : bool :=
  negb (Url.is_c0_or_space c) && negb (Ascii.eqb c "#") && negb (Ascii.eqb c "?").

(** What stands before the question mark of a callback URL: not empty,
    made of plain characters. *)
Definition plain_reference (P : string) : bool :=
  Url.non_empty P && Js.all_chars plain_char P.

(** The number of occurrences of [c] in [s]. *)
Fixpoint count_char (c : ascii) (s : string) : nat :=
  match s with
  | EmptyString => 0
  | String a rest => (if Ascii.eqb a c then 1 else 0) + count_char c rest
  end.

(** A character that the preparation of the input keeps and that does not
    start a fragment. *)
Definition query_char (c : ascii) : bool :=
  negb (Url.is_c0_or_space c) && negb (Ascii.eqb c "#").

(** The query of a callback that carries [st], [c] and [sc] as [state],
    [code] and [scope], form-urlencoded. *)
Definition callback_of (st c sc : string) : string :=
  Url.urlencoded_serialize [("state", st); ("code", c); ("scope", sc)].

(** The parameter object that has not been narrowed yet. *)
Definition raw_of (p : ParamObject) : RawParamObject :=
  {| raw_state := Some (state p);
     raw_code := Some (code p);
     raw_scope := Some (scope p) |}.

(** * Properties *)

(** Case analysis on the eight bits of a byte. *)
Ltac each_byte c := destruct c as [[] [] [] [] [] [] [] []].

(** ** Appending strings *)

Lemma append_nil_r (s : string) : s ++ "" = s.
Proof. induction s as [| a s IH]; simpl; [reflexivity | now rewrite IH]. Qed.

Lemma append_assoc (s t u : string) : (s ++ t) ++ u = s ++ (t ++ u).
Proof. induction s as [| a s IH]; simpl; [reflexivity | now rewrite IH]. Qed.

(** ** Joining and splitting *)

Section SplitJoin.

Variable sep : ascii.

Lemma split_pieces_whole (x : string) :
  Js.no_char sep x = true -> Js.split_pieces sep x = (x, []).
Proof.
  induction x as [| a x IH]; simpl; intro Hx.
  - reflexivity.
  - apply andb_prop in Hx as [Ha Hx].
    rewrite (IH Hx).
    destruct (Ascii.eqb a sep); [discriminate Ha | reflexivity].
Qed.

Lemma split_pieces_app (x rest : string) :
  Js.no_char sep x = true ->
  Js.split_pieces sep (x ++ String sep rest)
  = (x, Js.String_split sep rest).
Proof.
  unfold Js.String_split.
  induction x as [| a x IH]; simpl; intro Hx.
  - rewrite Ascii.eqb_refl. destruct (Js.split_pieces sep rest); reflexivity.
  - apply andb_prop in Hx as [Ha Hx].
    rewrite (IH Hx).
    destruct (Js.split_pieces sep rest) as [p ps].
    destruct (Ascii.eqb a sep); [discriminate Ha | reflexivity].
Qed.

Lemma String_split_whole (x : string) :
  Js.no_char sep x = true -> Js.String_split sep x = [x].
Proof.
  intro Hx. unfold Js.String_split. now rewrite split_pieces_whole.
Qed.

Lemma String_split_app (x rest : string) :
  Js.no_char sep x = true ->
  Js.String_split sep (x ++ String sep rest) = x :: Js.String_split sep rest.
Proof.
  intro Hx. unfold Js.String_split at 1. now rewrite split_pieces_app.
Qed.

(** Splitting undoes joining, for a list that is not empty and whose
    members do not hold the separator. *)
Lemma String_split_join (l : list string) :
  l <> [] ->
  forallb (Js.no_char sep) l = true ->
  Js.String_split sep (Js.Array_join (String sep EmptyString) l) = l.
Proof.
  induction l as [| x l IH]; intros Hne Hall.
  - contradiction.
  - simpl in Hall. apply andb_prop in Hall as [Hx Hl].
    destruct l as [| y l].
    + simpl. now apply String_split_whole.
    + change (Js.Array_join (String sep EmptyString) (x :: y :: l))
        with (x ++ String sep (Js.Array_join (String sep EmptyString) (y :: l))).
      rewrite String_split_app by assumption.
      f_equal. apply IH; [discriminate | assumption].
Qed.

Lemma cut_at_whole (x : string) :
  Js.no_char sep x = true -> Js.cut_at sep x = (x, None).
Proof.
  induction x as [| a x IH]; simpl; intro Hx.
  - reflexivity.
  - apply andb_prop in Hx as [Ha Hx].
    rewrite (IH Hx).
    destruct (Ascii.eqb a sep); [discriminate Ha | reflexivity].
Qed.

Lemma cut_at_app (x rest : string) :
  Js.no_char sep x = true ->
  Js.cut_at sep (x ++ String sep rest) = (x, Some rest).
Proof.
  induction x as [| a x IH]; simpl; intro Hx.
  - now rewrite Ascii.eqb_refl.
  - apply andb_prop in Hx as [Ha Hx].
    rewrite (IH Hx).
    destruct (Ascii.eqb a sep); [discriminate Ha | reflexivity].
Qed.

End SplitJoin.

(** C3: for every non-empty sequence [S] of scope identifiers,
    [stringToScopes(scopesToString(S))] is [S]: the comma join followed by
    the comma split is the identity. *)
Theorem stringToScopes_scopesToString (S : list Scope) :
  S <> [] ->
  forallb is_scope_identifier S = true ->
  stringToScopes (scopesToString S) = S.
Proof.
  intros Hne Hids.
  unfold stringToScopes, scopesToString.
  apply (String_split_join "," S Hne Hids).
Qed.

Lemma stringToScopes_scopesToString_witness :
  stringToScopes (scopesToString ["read"; "activity:read_all"])
  = ["read"; "activity:read_all"].
Proof.
  apply stringToScopes_scopesToString.
  - discriminate.
  - reflexivity.
Defined.

(** The separator cannot be part of an identifier: a string that holds a
    comma comes back as two. *)
Example comma_in_a_scope_splits :
  stringToScopes (scopesToString ["a,b"]) = ["a"; "b"].
Proof. reflexivity. Qed.

(** C4: [scopesToString([])] is the empty string, and
    [stringToScopes("")] is the sequence whose only member is the empty
    string: the empty member is kept, so the two operations are not
    inverse at the empty sequence. *)
Theorem empty_scopes_asymmetry :
  scopesToString [] = ""
  /\ stringToScopes "" = [""]
  /\ stringToScopes (scopesToString []) = [""]
  /\ stringToScopes (scopesToString []) <> [].
Proof.
  repeat split; try reflexivity. discriminate.
Qed.

(** ** The scope check *)

Lemma Array_includes_In (a : list string) (x : string) :
  Js.Array_includes a x = true <-> In x a.
Proof.
  unfold Js.Array_includes. rewrite existsb_exists. split.
  - intros [y [Hy Heq]]. apply String.eqb_eq in Heq. now subst.
  - intro Hx. exists x. split; [assumption | apply String.eqb_refl].
Qed.

Lemma for_each_scope_pass (requested granted : list Scope) (e : JsError) (w : World) :
  (forall g, In g granted -> In g requested) ->
  for_each_scope requested e granted w = (Ok tt, w).
Proof.
  induction granted as [| g granted IH]; intro Hall; simpl.
  - reflexivity.
  - assert (Hg : Js.Array_includes requested g = true)
      by (apply Array_includes_In, Hall; now left).
    rewrite Hg. simpl. apply IH. intros g' Hg'. apply Hall. now right.
Qed.

Lemma for_each_scope_fail (requested granted : list Scope) (e : JsError) (w : World) :
  ~ (forall g, In g granted -> In g requested) ->
  for_each_scope requested e granted w = (Throw e, w).
Proof.
  induction granted as [| g granted IH]; intro Hnot; simpl.
  - exfalso. apply Hnot. intros g [].
  - destruct (Js.Array_includes requested g) eqn:Hg; simpl.
    + apply IH. intro Hall. apply Hnot. intros g' [<- | Hg'].
      * now apply Array_includes_In.
      * now apply Hall.
    + reflexivity.
Qed.

Section ScopeCheck.

Context `{Platform}.

Variables (w : World) (param_object : ParamObject) (requested : list Scope).

Hypothesis configured : scopes (config (this w)) = Some requested.

Let granted := stringToScopes (scope param_object).

(** When the check fails, nothing else happens. *)
Lemma getTokenFromObject_mismatch :
  ~ scopes_agree requested granted ->
  getTokenFromObject param_object w = (Throw (scope_error (config (this w)) granted), w).
Proof.
  intro Hnot.
  unfold getTokenFromObject, bind, this_config, ret, throw.
  rewrite configured. fold granted.
  destruct (Nat.eqb_spec (length granted) (length requested)) as [Hlen | Hlen]; simpl.
  - rewrite for_each_scope_fail; [reflexivity |].
    intro Hall. apply Hnot. now split.
  - reflexivity.
Qed.

(** When the check passes, the request goes out, and what follows
    depends on the answer alone. *)
Lemma getTokenFromObject_agree :
  scopes_agree requested granted ->
  getTokenFromObject param_object w
  = let r := token_request (config (this w)) param_object in
    match axios_post (requests w) r with
    | Throw e => (Throw e, sent w r)
    | Ok d =>
        match assertValidTokenResponse d with
        | Throw e => (Throw e, sent w r)
        | Ok checked =>
            (Ok (new_Token (token_type checked) (expires_at checked)
                   (expires_in checked) (refresh_token checked)
                   (access_token checked) (athlete checked)),
             sent w r)
        end
    end.
Proof.
  intros [Hlen Hall].
  unfold getTokenFromObject, bind, this_config, ret, throw.
  rewrite configured. fold granted.
  rewrite Hlen, Nat.eqb_refl. simpl.
  rewrite for_each_scope_pass by assumption.
  unfold post, token_request_body, token_request, sent,
    GRANT_TYPE_AUTHORIZATION_CODE. simpl.
  destruct (axios_post _ _) as [d | e]; [| reflexivity].
  unfold lift, ret, throw.
  destruct (assertValidTokenResponse d); reflexivity.
Qed.

Lemma getTokenFromObject_agree_requests :
  scopes_agree requested granted ->
  snd (getTokenFromObject param_object w)
  = sent w (token_request (config (this w)) param_object).
Proof.
  intro Hagree. rewrite getTokenFromObject_agree by assumption. simpl.
  destruct (axios_post _ _) as [d | e]; [| reflexivity].
  destruct (assertValidTokenResponse d); reflexivity.
Qed.

End ScopeCheck.

Lemma scopes_agree_dec (requested granted : list Scope) :
  {scopes_agree requested granted} + {~ scopes_agree requested granted}.
Proof.
  unfold scopes_agree.
  destruct (Nat.eq_dec (length granted) (length requested)) as [Hlen | Hlen].
  - destruct (forallb (Js.Array_includes requested) granted) eqn:Hall.
    + left. split; [assumption |].
      intros g Hg. apply Array_includes_In.
      now apply (proj1 (forallb_forall _ _) Hall).
    + right. intros [_ Hin].
      assert (forallb (Js.Array_includes requested) granted = true) as Htrue.
      { apply forallb_forall. intros g Hg. now apply Array_includes_In, Hin. }
      congruence.
  - right. now intros [Hlen' _].
Qed.

(** A call of [getTokenFromObject] sends nothing or the one request of the
    exchange, and leaves the instance as it is. *)
Lemma getTokenFromObject_effect `{Platform} (w : World) (param_object : ParamObject) :
  snd (getTokenFromObject param_object w) = w
  \/ snd (getTokenFromObject param_object w)
     = sent w (token_request (config (this w)) param_object).
Proof.
  destruct (scopes (config (this w))) as [requested |] eqn:Hcfg.
  - destruct (scopes_agree_dec requested (stringToScopes (scope param_object)))
      as [Hagree | Hnot].
    + right. now apply getTokenFromObject_agree_requests with (requested := requested).
    + left. now rewrite (getTokenFromObject_mismatch w param_object requested Hcfg Hnot).
  - left. unfold getTokenFromObject, bind, this_config, throw. now rewrite Hcfg.
Qed.

Lemma getToken_with_base_effect `{Platform} (base req_url : string) (w : World) :
  snd (getToken_with_base base req_url w) = w
  \/ exists param_object,
       snd (getToken_with_base base req_url w)
       = sent w (token_request (config (this w)) param_object).
Proof.
  unfold getToken_with_base, bind, lift, ret, throw.
  destruct (Url.new_URL url_resolve req_url (Some base)) as [u | e]; [| now left].
  destruct (assertIsParamObj (paramObject_of u)) as [p | e]; [| now left].
  destruct (getTokenFromObject_effect w p) as [Hsame | Hsent].
  - now left.
  - right. now exists p.
Qed.

(** C1: with the scope of the parameter object parsed to [G] by
    [stringToScopes], [getTokenFromObject] throws the scope-mismatch error
    and leaves the state as it was, so that no request has been issued,
    unless [G] is as long as the configured scopes and each member of [G]
    is one of them; when that holds the request of the exchange goes out.
    In particular granted [read, activity:read_all], in either order,
    against configured [read, activity:read_all], in either order, reaches
    the network, and granted [read] against them fails before it. *)
Theorem scope_check_before_network `{Platform}
    (w : World) (param_object : ParamObject) (requested G : list Scope) :
  scopes (config (this w)) = Some requested ->
  stringToScopes (scope param_object) = G ->
  (~ (length G = length requested /\ forall g, In g G -> In g requested) ->
   getTokenFromObject param_object w
   = (Throw (scope_error (config (this w)) G), w))
  /\ (length G = length requested /\ (forall g, In g G -> In g requested) ->
      requests (snd (getTokenFromObject param_object w))
      = (requests w ++ [token_request (config (this w)) param_object])%list)
  /\ (requested = ["read"; "activity:read_all"]
      \/ requested = ["activity:read_all"; "read"] ->
      (scope param_object = "read,activity:read_all"
       \/ scope param_object = "activity:read_all,read" ->
       requests (snd (getTokenFromObject param_object w))
       = (requests w ++ [token_request (config (this w)) param_object])%list)
      /\ (scope param_object = "read" ->
          getTokenFromObject param_object w
          = (Throw (scope_error (config (this w)) ["read"]), w)
          /\ requests (snd (getTokenFromObject param_object w)) = requests w)).
Proof.
  intros Hcfg HG. subst G.
  assert (Hpass : scopes_agree requested (stringToScopes (scope param_object)) ->
                  requests (snd (getTokenFromObject param_object w))
                  = (requests w ++ [token_request (config (this w)) param_object])%list).
  { intro Hagree.
    now rewrite (getTokenFromObject_agree_requests w param_object requested Hcfg Hagree). }
  split; [| split].
  - intro Hnot. now apply getTokenFromObject_mismatch with (requested := requested).
  - exact Hpass.
  - intro Hrequested. split.
    + intro Hscope. apply Hpass.
      destruct Hrequested as [-> | ->], Hscope as [-> | ->];
        (split; [reflexivity |]); simpl; intuition.
    + intro Hscope.
      assert (Hnot : ~ scopes_agree requested (stringToScopes (scope param_object))).
      { rewrite Hscope. intros [Hlen _].
        destruct Hrequested as [-> | ->]; discriminate Hlen. }
      rewrite (getTokenFromObject_mismatch w param_object requested Hcfg Hnot).
      rewrite Hscope. split; reflexivity.
Qed.

Lemma scope_check_before_network_witness :
  getTokenFromObject (H := Reference.platform)
    {| code := "abc"; state := "x"; scope := "read" |}
    (start Reference.client)
  = (Throw (Error "Requested scopes read,activity:read_all not granted. Got: read"),
     start Reference.client).
Proof.
  apply (proj1 (scope_check_before_network (H := Reference.platform)
                  (start Reference.client)
                  {| code := "abc"; state := "x"; scope := "read" |}
                  ["read"; "activity:read_all"] ["read"]
                  eq_refl eq_refl)).
  intros [Hlen _]. discriminate Hlen.
Defined.

(** C2: when the scope check passes, [getTokenFromObject] issues exactly
    one request: a POST to the configured [tokenUri] whose body has the
    fields [client_id] (the configured [clientId]), [client_secret] (the
    configured [clientSecret]), [code] (of the parameter object) and
    [grant_type] with the value [authorization_code], and no other field.
    Nothing else in the exchange reaches the network: a call of
    [getToken] sends nothing or that one request. *)
Theorem exchange_issues_one_post `{Platform}
    (w : World) (param_object : ParamObject) (requested : list Scope) :
  scopes (config (this w)) = Some requested ->
  scopes_agree requested (stringToScopes (scope param_object)) ->
  requests (snd (getTokenFromObject param_object w))
  = (requests w
     ++ [ {| method := "POST";
             url := tokenUri (config (this w));
             data :=
               [ ("client_id", value_of_id (clientId (config (this w))));
                 ("client_secret", value_of_string (clientSecret (config (this w))));
                 ("code", JsString (code param_object));
                 ("grant_type", JsString "authorization_code") ] |} ])%list
  /\ (forall req_url,
        requests (snd (getToken req_url w)) = requests w
        \/ exists p,
             requests (snd (getToken req_url w))
             = (requests w ++ [token_request (config (this w)) p])%list).
Proof.
  intros Hcfg Hagree. split.
  - now rewrite (getTokenFromObject_agree_requests w param_object requested Hcfg Hagree).
  - intro req_url. unfold getToken.
    destruct (getToken_with_base_effect PLACEHOLDER_URL req_url w) as [-> | [p ->]].
    + now left.
    + right. now exists p.
Qed.

Lemma exchange_issues_one_post_witness :
  requests
    (snd (getTokenFromObject (H := Reference.platform)
            {| code := "abc"; state := "x"; scope := "activity:read_all,read" |}
            (start Reference.client)))
  = [ {| method := "POST";
         url := Some "https://www.strava.com/oauth/token";
         data :=
           [ ("client_id", JsNumber 12345);
             ("client_secret", JsString "s3cret");
             ("code", JsString "abc");
             ("grant_type", JsString "authorization_code") ] |} ].
Proof.
  assert (Hagree : scopes_agree ["read"; "activity:read_all"]
                     (stringToScopes "activity:read_all,read")).
  { split; [reflexivity |]. simpl. intuition. }
  exact (proj1 (exchange_issues_one_post (H := Reference.platform)
                  (start Reference.client)
                  {| code := "abc"; state := "x"; scope := "activity:read_all,read" |}
                  ["read"; "activity:read_all"] eq_refl Hagree)).
Defined.

(** C8: whenever the scope check of [getTokenFromObject] fails, the error
    it throws carries in its message the configured scopes and the scopes
    that were granted, both written with commas, and the call yields no
    token. *)
Theorem scope_mismatch_names_both `{Platform}
    (w : World) (param_object : ParamObject) (requested : list Scope) :
  scopes (config (this w)) = Some requested ->
  ~ scopes_agree requested (stringToScopes (scope param_object)) ->
  let granted := stringToScopes (scope param_object) in
  let msg :=
    "Requested scopes " ++ scopesToString requested
    ++ " not granted. Got: " ++ scopesToString granted in
  getTokenFromObject param_object w = (Throw (Error msg), w)
  /\ contains msg (scopesToString requested)
  /\ contains msg (scopesToString granted)
  /\ (forall token, fst (getTokenFromObject param_object w) <> Ok token).
Proof.
  intros Hcfg Hnot granted msg.
  assert (Hrun : getTokenFromObject param_object w = (Throw (Error msg), w)).
  { rewrite (getTokenFromObject_mismatch w param_object requested Hcfg Hnot).
    unfold scope_error. now rewrite Hcfg. }
  split; [exact Hrun | split; [| split]].
  - exists "Requested scopes ", (" not granted. Got: " ++ scopesToString granted).
    reflexivity.
  - exists ("Requested scopes " ++ scopesToString requested ++ " not granted. Got: "), "".
    subst msg. rewrite append_nil_r.
    now rewrite !append_assoc.
  - intros token Htoken. rewrite Hrun in Htoken. discriminate Htoken.
Qed.

Lemma scope_mismatch_names_both_witness :
  getTokenFromObject (H := Reference.platform)
    {| code := "abc"; state := "x"; scope := "read,profile:write,activity:write" |}
    (start Reference.client)
  = (Throw (Error "Requested scopes read,activity:read_all not granted. Got: read,profile:write,activity:write"),
     start Reference.client).
Proof.
  apply (scope_mismatch_names_both (H := Reference.platform)
           (start Reference.client)
           {| code := "abc"; state := "x"; scope := "read,profile:write,activity:write" |}
           ["read"; "activity:read_all"] eq_refl).
  intros [Hlen _]. discriminate Hlen.
Defined.


(** The example of C9 run on a client: the token comes back and the
    request has gone out. *)
Example duplicates_reach_the_network :
  getTokenFromObject (H := Reference.platform)
    {| code := "abc"; state := "x"; scope := "read,read" |}
    (start Reference.client)
  = (Ok (new_Token "Bearer" 1700000000 21600 "r1" "a1" 42%nat),
     sent (start Reference.client)
       (token_request (config Reference.client)
          {| code := "abc"; state := "x"; scope := "read,read" |})).
Proof. reflexivity. Qed.

(** ** The configuration check and the constructor *)

Lemma falsy_id_spec (x : option ClientId) :
  falsy_id x = true <-> id_missing_or_falsy x.
Proof.
  unfold id_missing_or_falsy. split.
  - destruct x as [[s | n] |]; simpl; intro Hx.
    + apply String.eqb_eq in Hx. subst. right. now left.
    + apply Z.eqb_eq in Hx. subst. right. now right.
    + now left.
  - intros [-> | [-> | ->]]; reflexivity.
Qed.

Lemma falsy_string_spec (x : option string) :
  falsy_string x = true <-> string_missing_or_falsy x.
Proof.
  unfold string_missing_or_falsy. split.
  - destruct x as [s |]; simpl; intro Hx.
    + apply String.eqb_eq in Hx. subst. now right.
    + now left.
  - intros [-> | ->]; reflexivity.
Qed.

Lemma validateConfig_cases (supplied : ClientConstructorConfig) :
  (id_missing_or_falsy (clientId supplied)
   /\ validateConfig supplied = Throw (Error "client_id must be specified"))
  \/ (~ id_missing_or_falsy (clientId supplied)
      /\ string_missing_or_falsy (clientSecret supplied)
      /\ validateConfig supplied = Throw (Error "client_secret must be specified"))
  \/ (~ id_missing_or_falsy (clientId supplied)
      /\ ~ string_missing_or_falsy (clientSecret supplied)
      /\ validateConfig supplied = Ok true).
Proof.
  unfold validateConfig.
  destruct (falsy_id (clientId supplied)) eqn:Hid.
  - left. split; [now apply falsy_id_spec | reflexivity].
  - right.
    assert (Hnid : ~ id_missing_or_falsy (clientId supplied)).
    { intro Hmiss. apply falsy_id_spec in Hmiss. congruence. }
    destruct (falsy_string (clientSecret supplied)) eqn:Hsecret.
    + left. repeat split; [assumption | now apply falsy_string_spec].
    + right. repeat split; [assumption |].
      intro Hmiss. apply falsy_string_spec in Hmiss. congruence.
Qed.

(** C5: [validateConfig] throws a configuration error exactly when
    [clientId] is missing or falsy or [clientSecret] is missing or falsy,
    and returns [true] otherwise; [clientId] is checked first; the outcome
    depends on no other property of the configuration; and the
    constructor throws what the check throws, so that no client comes out
    of such a configuration, whatever the defaults are. *)
Theorem validateConfig_guards_construction `{Platform}
    (supplied : ClientConstructorConfig) :
  ((exists e, validateConfig supplied = Throw e /\ configuration_error e)
   <-> id_missing_or_falsy (clientId supplied)
       \/ string_missing_or_falsy (clientSecret supplied))
  /\ (validateConfig supplied = Ok true
      <-> ~ id_missing_or_falsy (clientId supplied)
          /\ ~ string_missing_or_falsy (clientSecret supplied))
  /\ (id_missing_or_falsy (clientId supplied) ->
      validateConfig supplied = Throw (Error "client_id must be specified"))
  /\ (forall other : ClientConstructorConfig,
        clientId other = clientId supplied ->
        clientSecret other = clientSecret supplied ->
        validateConfig other = validateConfig supplied)
  /\ (forall e, validateConfig supplied = Throw e ->
                constructor supplied = Throw e)
  /\ (id_missing_or_falsy (clientId supplied)
      \/ string_missing_or_falsy (clientSecret supplied) ->
      forall c, constructor supplied <> Ok c).
Proof.
  assert (Hthrow : forall e, validateConfig supplied = Throw e ->
                             constructor supplied = Throw e).
  { intros e He. unfold constructor. now rewrite He. }
  pose proof (validateConfig_cases supplied) as Hcases.
  split; [| split; [| split; [| split; [| split]]]].
  - split.
    + intros [e [He _]].
      destruct Hcases as [[Hid _] | [[_ [Hsecret _]] | [_ [_ Hrun]]]].
      * now left.
      * now right.
      * rewrite Hrun in He. discriminate He.
    + intros Hmiss.
      destruct Hcases as [[_ Hrun] | [[_ [_ Hrun]] | [Hid [Hsecret _]]]].
      * eexists. split; [exact Hrun | now left].
      * eexists. split; [exact Hrun | now right].
      * destruct Hmiss; contradiction.
  - split.
    + intro Hok.
      destruct Hcases as [[_ Hrun] | [[_ [_ Hrun]] | [Hid [Hsecret _]]]].
      * rewrite Hrun in Hok. discriminate Hok.
      * rewrite Hrun in Hok. discriminate Hok.
      * now split.
    + intros [Hnid Hnsecret].
      destruct Hcases as [[Hid _] | [[_ [Hsecret _]] | [_ [_ Hrun]]]].
      * contradiction.
      * contradiction.
      * exact Hrun.
  - intro Hmiss.
    destruct Hcases as [[_ Hrun] | [[Hid _] | [Hid _]]].
    + exact Hrun.
    + contradiction.
    + contradiction.
  - intros other Hoid Hosecret. unfold validateConfig. now rewrite Hoid, Hosecret.
  - exact Hthrow.
  - intros Hmiss c Hc.
    destruct Hcases as [[_ Hrun] | [[_ [_ Hrun]] | [Hid [Hsecret _]]]].
    + rewrite (Hthrow _ Hrun) in Hc. discriminate Hc.
    + rewrite (Hthrow _ Hrun) in Hc. discriminate Hc.
    + destruct Hmiss; contradiction.
Qed.

(** ** What the methods leave behind *)

(** [getAuthorizationUri] leaves the state as it finds it: the instance is
    not written to and nothing is sent. *)
Lemma getAuthorizationUri_state `{Platform} (w : World) :
  snd (getAuthorizationUri w) = w.
Proof.
  unfold getAuthorizationUri, bind, this_config, lift, ret, throw.
  destruct (Url.new_URL _ _ _); [| reflexivity].
  destruct (clientId (config (this w))); [| reflexivity].
  destruct (scopes (config (this w))); reflexivity.
Qed.

(** What [getAuthorizationUri] returns is a function of the configuration. *)
Lemma getAuthorizationUri_pure `{Platform} (w w' : World) :
  config (this w') = config (this w) ->
  fst (getAuthorizationUri w') = fst (getAuthorizationUri w).
Proof.
  intro Hsame.
  unfold getAuthorizationUri, bind, this_config, lift, ret, throw.
  rewrite Hsame.
  destruct (Url.new_URL _ _ _); [| reflexivity].
  destruct (clientId (config (this w))); [| reflexivity].
  destruct (scopes (config (this w))); reflexivity.
Qed.

Lemma getTokenFromObject_this `{Platform} (w : World) (param_object : ParamObject) :
  this (snd (getTokenFromObject param_object w)) = this w.
Proof.
  destruct (getTokenFromObject_effect w param_object) as [-> | ->]; reflexivity.
Qed.

Lemma getToken_this `{Platform} (w : World) (req_url : string) :
  this (snd (getToken req_url w)) = this w.
Proof.
  unfold getToken.
  destruct (getToken_with_base_effect PLACEHOLDER_URL req_url w) as [-> | [p ->]];
    reflexivity.
Qed.

(** C10: the constructor checks the configuration of the caller before
    it merges it over the defaults, so the defaults cannot stand in for a
    missing [clientId] or [clientSecret]: a client that has been
    constructed holds a merged configuration whose [clientId] and
    [clientSecret] are the truthy values the caller supplied, and every
    method leaves the instance, hence its configuration, as it is. *)
Theorem constructed_client_keeps_credentials `{Platform}
    (supplied : ClientConstructorConfig) (c : Client) :
  constructor supplied = Ok c ->
  validateConfig supplied = Ok true
  /\ config c = spread defaultConfig supplied
  /\ ~ id_missing_or_falsy (clientId supplied)
  /\ ~ string_missing_or_falsy (clientSecret supplied)
  /\ clientId (config c) = clientId supplied
  /\ clientSecret (config c) = clientSecret supplied
  /\ (forall w, this w = c ->
        this (snd (getAuthorizationUri w)) = c
        /\ (forall req_url, this (snd (getToken req_url w)) = c)
        /\ (forall param_object, this (snd (getTokenFromObject param_object w)) = c)).
Proof.
  intro Hnew.
  destruct (validateConfig_cases supplied)
    as [[_ Hrun] | [[_ [_ Hrun]] | [Hid [Hsecret Hrun]]]];
    unfold constructor in Hnew; rewrite Hrun in Hnew; try discriminate Hnew.
  injection Hnew as <-.
  split; [exact Hrun | split; [reflexivity | split; [exact Hid | split; [exact Hsecret |]]]].
  split; [| split].
  - simpl. destruct (clientId supplied) as [i |]; [reflexivity |].
    exfalso. apply Hid. now left.
  - simpl. destruct (clientSecret supplied) as [s |]; [reflexivity |].
    exfalso. apply Hsecret. now left.
  - intros w Hw. split; [| split].
    + now rewrite getAuthorizationUri_state.
    + intro req_url. now rewrite getToken_this.
    + intro param_object. now rewrite getTokenFromObject_this.
Qed.

Lemma constructed_client_keeps_credentials_witness :
  clientId (config Reference.client) = Some (IdNumber 12345)
  /\ clientSecret (config Reference.client) = Some "s3cret".
Proof.
  pose proof (constructed_client_keeps_credentials (H := Reference.platform)
                Reference.caller Reference.client eq_refl) as Hkept.
  split; [exact (proj1 (proj2 (proj2 (proj2 (proj2 Hkept)))))
         | exact (proj1 (proj2 (proj2 (proj2 (proj2 (proj2 Hkept))))))].
Defined.

(** Defaults that carry credentials of their own do not help a caller who
    supplies none. *)
Example defaults_do_not_validate :
  constructor
    (H := {| SummaryAthlete := nat;
             ResponseData := TokenResponse nat;
             defaultConfig := Reference.caller;
             url_resolve := Reference.resolve;
             assertIsParamObj := Reference.assert_param;
             assertValidTokenResponse := fun d => Ok d;
             axios_post := fun _ _ => Ok Reference.answer |})
    {| clientId := None; clientSecret := None; redirectUri := None;
       authorizationUri := None; tokenUri := None; scopes := None |}
  = Throw (Error "client_id must be specified").
Proof. reflexivity. Qed.

(** ** The form-urlencoded serializer and its parser *)

(** Decoding gives back the bytes that were encoded. *)
Lemma percent_decode_encode (s : string) :
  Url.percent_decode (Url.plus_to_space (Url.urlencoded_encode s)) = s.
Proof.
  induction s as [| c s IH]; [reflexivity |].
  each_byte c; simpl; rewrite IH; reflexivity.
Qed.

(** An encoded name or value holds neither [&] nor [=]. *)
Lemma encode_no_ampersand (s : string) :
  Js.no_char "&" (Url.urlencoded_encode s) = true.
Proof.
  induction s as [| c s IH]; [reflexivity |].
  each_byte c; simpl; exact IH.
Qed.

Lemma encode_no_equals (s : string) :
  Js.no_char "=" (Url.urlencoded_encode s) = true.
Proof.
  induction s as [| c s IH]; [reflexivity |].
  each_byte c; simpl; exact IH.
Qed.

Lemma no_char_app (d : ascii) (s t : string) :
  Js.no_char d (s ++ t) = Js.no_char d s && Js.no_char d t.
Proof.
  induction s as [| a s IH]; simpl; [reflexivity |].
  rewrite IH. now rewrite andb_assoc.
Qed.

Lemma well_formed_decode (s : string) :
  Url.well_formed s = true -> Url.utf8_decode s = s.
Proof. intro Hs. now apply String.eqb_eq. Qed.

Lemma urlencoded_decode_encode (s : string) :
  Url.well_formed s = true ->
  Url.urlencoded_decode (Url.urlencoded_encode s) = s.
Proof.
  intro Hs. unfold Url.urlencoded_decode.
  rewrite percent_decode_encode. now apply well_formed_decode.
Qed.

Lemma parse_sequence_pair (p : string * string) :
  well_formed_pair p = true ->
  Url.parse_sequence (Url.urlencoded_pair p) = p.
Proof.
  destruct p as [k v]. unfold well_formed_pair. simpl. intro Hp.
  apply andb_prop in Hp as [Hk Hv].
  unfold Url.parse_sequence, Url.urlencoded_pair. simpl.
  rewrite (cut_at_app "=" _ _ (encode_no_equals k)).
  now rewrite !urlencoded_decode_encode.
Qed.

Lemma urlencoded_pair_no_ampersand (p : string * string) :
  Js.no_char "&" (Url.urlencoded_pair p) = true.
Proof.
  unfold Url.urlencoded_pair. rewrite no_char_app. simpl.
  now rewrite !encode_no_ampersand.
Qed.

Lemma urlencoded_pair_non_empty (p : string * string) :
  Url.non_empty (Url.urlencoded_pair p) = true.
Proof.
  unfold Url.urlencoded_pair.
  destruct (Url.urlencoded_encode (fst p)); reflexivity.
Qed.

(** Parsing undoes serializing, for names and values that are well formed. *)
Lemma urlencoded_parse_serialize (l : list (string * string)) :
  forallb well_formed_pair l = true ->
  Url.urlencoded_parse (Url.urlencoded_serialize l) = l.
Proof.
  intro Hl. unfold Url.urlencoded_parse, Url.urlencoded_serialize.
  destruct l as [| p l]; [reflexivity |].
  rewrite (String_split_join "&").
  - assert (Hkeep : forall m, filter Url.non_empty (map Url.urlencoded_pair m)
                              = map Url.urlencoded_pair m).
    { induction m as [| q m IHm]; simpl; [reflexivity |].
      now rewrite urlencoded_pair_non_empty, IHm. }
    rewrite Hkeep, map_map.
    clear Hkeep. revert Hl. generalize (p :: l). intros m Hm.
    induction m as [| q m IHm]; simpl; [reflexivity |].
    simpl in Hm. apply andb_prop in Hm as [Hq Hm].
    now rewrite parse_sequence_pair, IHm.
  - discriminate.
  - rewrite forallb_forall. intros x Hx.
    apply in_map_iff in Hx as [q [<- _]]. apply urlencoded_pair_no_ampersand.
Qed.

Lemma String_split_app_any (sep : ascii) (x y : string) :
  Js.String_split sep (x ++ String sep y)
  = (Js.String_split sep x ++ Js.String_split sep y)%list.
Proof.
  unfold Js.String_split.
  induction x as [| a x IH]; simpl.
  - rewrite Ascii.eqb_refl. destruct (Js.split_pieces sep y); reflexivity.
  - destruct (Js.split_pieces sep (x ++ String sep y)) as [p ps].
    destruct (Js.split_pieces sep x) as [p' ps'].
    destruct (Js.split_pieces sep y) as [q qs].
    simpl in IH. injection IH as -> ->.
    destruct (Ascii.eqb a sep); reflexivity.
Qed.


Lemma urlencoded_parse_app (x y : string) :
  Url.urlencoded_parse (x ++ "&" ++ y)
  = (Url.urlencoded_parse x ++ Url.urlencoded_parse y)%list.
Proof.
  unfold Url.urlencoded_parse.
  change (x ++ "&" ++ y) with (x ++ String "&" y).
  now rewrite String_split_app_any, filter_app, map_app.
Qed.


(** ** The authorization URI *)



(** A scope with characters that are special in a query comes back from
    the parser as it was. *)
Example special_characters_survive :
  Url.urlencoded_parse
    (Url.urlencoded_serialize
       (authorization_parameters (IdString "a&b") "http://x/?y=z#w"
          ["read write"; "a=b&c"; "100%+"]))
  = authorization_parameters (IdString "a&b") "http://x/?y=z#w"
      ["read write"; "a=b&c"; "100%+"].
Proof. reflexivity. Qed.

(** ** The callback URL *)

Lemma strip_trailing_cons (c : ascii) (s : string) :
  Url.is_c0_or_space c = false ->
  Url.strip_trailing (String c s) = String c (Url.strip_trailing s).
Proof.
  intro Hc. simpl. rewrite Hc. now destruct (Url.strip_trailing s).
Qed.

Lemma tab_or_newline_is_c0 (c : ascii) :
  Url.is_c0_or_space c = false -> Url.is_tab_or_newline c = false.
Proof.
  unfold Url.is_c0_or_space, Url.is_tab_or_newline. intro Hc.
  apply N.leb_gt in Hc.
  repeat (apply orb_false_intro); apply N.eqb_neq; lia.
Qed.

Lemma plain_char_inv (c : ascii) :
  plain_char c = true ->
  Url.is_c0_or_space c = false /\ Ascii.eqb c "#" = false /\ Ascii.eqb c "?" = false.
Proof.
  unfold plain_char. intro Hc.
  apply andb_prop in Hc as [Hc Hq]. apply andb_prop in Hc as [Hs Hh].
  repeat split; now apply negb_true_iff.
Qed.

Section PlainReference.

Variables (P Q : string).

Hypothesis plain : plain_reference P = true.

Let chars : Js.all_chars plain_char P = true.
Proof. now apply andb_prop in plain as [_ Hall]. Qed.

Lemma prepare_reference :
  Url.prepare (P ++ String "?" Q)
  = P ++ String "?" (Url.remove_tab_newline (Url.strip_trailing Q)).
Proof.
  unfold Url.prepare.
  assert (Hlead : Url.strip_leading (P ++ String "?" Q) = P ++ String "?" Q).
  { destruct P as [| c P']; [discriminate plain |].
    simpl in chars. apply andb_prop in chars as [Hc _].
    apply plain_char_inv in Hc as [Hc _]. simpl. now rewrite Hc. }
  rewrite Hlead. clear Hlead.
  assert (Htrail : forall X, Js.all_chars plain_char X = true ->
            Url.strip_trailing (X ++ String "?" Q)
            = X ++ String "?" (Url.strip_trailing Q)).
  { induction X as [| c X IH]; intro HX.
    - now apply strip_trailing_cons.
    - simpl in HX. apply andb_prop in HX as [Hc HX].
      apply plain_char_inv in Hc as [Hc _].
      change ((String c X) ++ String "?" Q) with (String c (X ++ String "?" Q)).
      rewrite strip_trailing_cons by assumption. now rewrite IH. }
  rewrite Htrail by exact chars. clear Htrail.
  generalize (Url.strip_trailing Q). intro Y.
  assert (Hkeep : forall X, Js.all_chars plain_char X = true ->
            Url.remove_tab_newline (X ++ String "?" Y)
            = X ++ String "?" (Url.remove_tab_newline Y)).
  { induction X as [| c X IH]; intro HX.
    - reflexivity.
    - simpl in HX. apply andb_prop in HX as [Hc HX].
      apply plain_char_inv in Hc as [Hc _].
      change ((String c X) ++ String "?" Y) with (String c (X ++ String "?" Y)).
      change (Url.remove_tab_newline (String c (X ++ String "?" Y)))
        with (if Url.is_tab_or_newline c
              then Url.remove_tab_newline (X ++ String "?" Y)
              else String c (Url.remove_tab_newline (X ++ String "?" Y))).
      rewrite (tab_or_newline_is_c0 c Hc). now rewrite IH. }
  now apply Hkeep.
Qed.

Lemma no_hash_in_reference : Js.no_char "#" P = true.
Proof.
  pose proof chars as HP. revert HP.
  generalize P. induction P0 as [| c X IH]; intro HX; [reflexivity |].
  simpl in HX. apply andb_prop in HX as [Hc HX].
  apply plain_char_inv in Hc as [_ [Hh _]]. simpl. now rewrite Hh, IH.
Qed.

Lemma no_question_in_reference : Js.no_char "?" P = true.
Proof.
  pose proof chars as HP. revert HP.
  generalize P. induction P0 as [| c X IH]; intro HX; [reflexivity |].
  simpl in HX. apply andb_prop in HX as [Hc HX].
  apply plain_char_inv in Hc as [_ [_ Hq]]. simpl. now rewrite Hq, IH.
Qed.

End PlainReference.

Lemma cut_at_skip (d : ascii) (X Z : string) :
  Js.no_char d X = true ->
  Js.cut_at d (X ++ Z) = (X ++ fst (Js.cut_at d Z), snd (Js.cut_at d Z)).
Proof.
  induction X as [| a X IH]; simpl; intro HX.
  - now destruct (Js.cut_at d Z).
  - apply andb_prop in HX as [Ha HX].
    rewrite (IH HX).
    destruct (Ascii.eqb a d); [discriminate Ha | reflexivity].
Qed.

(** The URL parsed from [P?Q]: the platform resolves [P], and the query
    and the fragment come from [Q] alone. *)
Lemma parse_reference (resolve : string -> option string -> option Url.Resolved)
    (P Q : string) (base : option Url.URL) :
  plain_reference P = true ->
  Url.parse resolve (P ++ String "?" Q) base
  = match resolve P (option_map Url.prefix base) with
    | None => None
    | Some r =>
        Some {| Url.prefix := Url.resolved_prefix r;
                Url.searchParams := Url.urlencoded_parse (callback_query Q);
                Url.fragment :=
                  option_map Url.fragment_encode
                    (snd (Js.cut_at "#"
                            (Url.remove_tab_newline (Url.strip_trailing Q)))) |}
    end.
Proof.
  intro HP. unfold Url.parse, callback_query.
  rewrite (prepare_reference P Q HP).
  rewrite (cut_at_skip "#" P _ (no_hash_in_reference P HP)).
  generalize (Url.remove_tab_newline (Url.strip_trailing Q)). intro Y.
  simpl. destruct (Js.cut_at "#" Y) as [b f]. simpl.
  rewrite (cut_at_app "?" P b (no_question_in_reference P HP)).
  reflexivity.
Qed.

Section Callback.

Context `{Platform}.

Variables (base P Q : string) (parsed_base : Url.URL) (r : Url.Resolved).

Hypothesis plain : plain_reference P = true.
Hypothesis base_parses : Url.parse url_resolve base None = Some parsed_base.
Hypothesis resolves : url_resolve P (Some (Url.prefix parsed_base)) = Some r.

(** The URL object [getToken] works on. *)
Lemma new_URL_reference :
  exists u,
    Url.new_URL url_resolve (P ++ String "?" Q) (Some base) = Ok u
    /\ paramObject_of u = params_of_query Q.
Proof.
  unfold Url.new_URL. rewrite base_parses.
  rewrite (parse_reference url_resolve P Q (Some parsed_base) plain).
  simpl. rewrite resolves. eexists. split; reflexivity.
Qed.

(** [getToken] on [P?Q] is the exchange on the parameters of [Q]. *)
Lemma getToken_with_base_reference (w : World) :
  getToken_with_base base (P ++ String "?" Q) w
  = (param_object <- lift (assertIsParamObj (params_of_query Q)) ;;
     getTokenFromObject param_object) w.
Proof.
  destruct new_URL_reference as [u [Hu Hparams]].
  unfold getToken_with_base.
  unfold bind at 1. rewrite Hu. simpl. now rewrite Hparams.
Qed.

End Callback.

(** C7: [getToken] takes a callback URL with or without scheme and host:
    on a platform that parses the placeholder and resolves both forms,
    for every query string [Q], the URL parsed from ["/callback?" ++ Q]
    and the one parsed from ["http://localhost/callback?" ++ Q] give the
    same record of [state], [code] and [scope], a record computed from
    [Q] alone; the two calls of [getToken] end alike in every respect;
    the call is the exchange on that record, so the request it may send
    is made of the configuration and of the [code] of [Q]; and any other
    base in the place of the placeholder gives the same outcome. *)
Theorem getToken_path_only_callback `{Platform}
    (Q : string) (w : World) (placeholder : Url.URL) (r1 r2 : Url.Resolved) :
  Url.parse url_resolve PLACEHOLDER_URL None = Some placeholder ->
  url_resolve "/callback" (Some (Url.prefix placeholder)) = Some r1 ->
  url_resolve "http://localhost/callback" (Some (Url.prefix placeholder)) = Some r2 ->
  (exists u1 u2,
     Url.new_URL url_resolve ("/callback?" ++ Q) (Some PLACEHOLDER_URL) = Ok u1
     /\ Url.new_URL url_resolve ("http://localhost/callback?" ++ Q)
          (Some PLACEHOLDER_URL) = Ok u2
     /\ paramObject_of u1 = paramObject_of u2
     /\ paramObject_of u1 = params_of_query Q)
  /\ getToken ("/callback?" ++ Q) w = getToken ("http://localhost/callback?" ++ Q) w
  /\ getToken ("/callback?" ++ Q) w
     = (param_object <- lift (assertIsParamObj (params_of_query Q)) ;;
        getTokenFromObject param_object) w
  /\ (requests (snd (getToken ("/callback?" ++ Q) w)) = requests w
      \/ exists param_object,
           assertIsParamObj (params_of_query Q) = Ok param_object
           /\ requests (snd (getToken ("/callback?" ++ Q) w))
              = (requests w ++ [token_request (config (this w)) param_object])%list)
  /\ (forall (base : string) (parsed_base : Url.URL) (r : Url.Resolved),
        Url.parse url_resolve base None = Some parsed_base ->
        url_resolve "/callback" (Some (Url.prefix parsed_base)) = Some r ->
        getToken_with_base base ("/callback?" ++ Q) w
        = getToken ("/callback?" ++ Q) w).
Proof.
  intros Hbase Hr1 Hr2.
  change ("/callback?" ++ Q) with ("/callback" ++ String "?" Q).
  change ("http://localhost/callback?" ++ Q)
    with ("http://localhost/callback" ++ String "?" Q).
  assert (Hpath : getToken ("/callback" ++ String "?" Q) w
                  = (param_object <- lift (assertIsParamObj (params_of_query Q)) ;;
                     getTokenFromObject param_object) w).
  { unfold getToken.
    now apply getToken_with_base_reference with (parsed_base := placeholder) (r := r1). }
  assert (Habsolute : getToken ("http://localhost/callback" ++ String "?" Q) w
                      = (param_object <- lift (assertIsParamObj (params_of_query Q)) ;;
                         getTokenFromObject param_object) w).
  { unfold getToken.
    now apply getToken_with_base_reference with (parsed_base := placeholder) (r := r2). }
  split; [| split; [| split; [| split]]].
  - destruct (new_URL_reference PLACEHOLDER_URL "/callback" Q placeholder r1
                eq_refl Hbase Hr1) as [u1 [Hu1 Hp1]].
    destruct (new_URL_reference PLACEHOLDER_URL "http://localhost/callback" Q
                placeholder r2 eq_refl Hbase Hr2) as [u2 [Hu2 Hp2]].
    exists u1, u2. repeat split; try assumption. congruence.
  - congruence.
  - exact Hpath.
  - rewrite Hpath. unfold bind, lift, ret, throw.
    destruct (assertIsParamObj (params_of_query Q)) as [p | e]; [| now left].
    destruct (getTokenFromObject_effect w p) as [-> | ->].
    + now left.
    + right. exists p. split; reflexivity.
  - intros base parsed_base r Hparsed Hr. rewrite Hpath.
    now apply getToken_with_base_reference with (parsed_base := parsed_base) (r := r).
Qed.

Lemma getToken_path_only_callback_witness :
  getToken (H := Reference.platform)
    "/callback?state=x&code=abc&scope=read,activity:read_all"
    (start Reference.client)
  = getToken (H := Reference.platform)
      "http://localhost/callback?state=x&code=abc&scope=read,activity:read_all"
      (start Reference.client).
Proof.
  exact (proj1 (proj2
           (getToken_path_only_callback (H := Reference.platform)
              "state=x&code=abc&scope=read,activity:read_all"
              (start Reference.client)
              {| Url.prefix := "http://localhost/";
                 Url.searchParams := [];
                 Url.fragment := None |}
              {| Url.resolved_prefix := "http://localhost/callback";
                 Url.keeps_base_query := false |}
              {| Url.resolved_prefix := "http://localhost/callback";
                 Url.keeps_base_query := false |}
              eq_refl eq_refl eq_refl))).
Defined.

(** The callback of the example, read through both forms of the URL. *)
Example callback_parameters :
  params_of_query "state=x&code=abc&scope=read"
  = {| raw_state := Some "x"; raw_code := Some "abc"; raw_scope := Some "read" |}
  /\ fst (getToken (H := Reference.platform)
            "/callback?state=x&code=abc&scope=read" (start Reference.client))
     = Throw (Error "Requested scopes read,activity:read_all not granted. Got: read").
Proof. split; reflexivity. Qed.

(** * Further properties of the client *)

(** ** Splitting and joining, any string *)

Lemma join_split_pieces (sep : ascii) (s : string) :
  Js.Array_join (String sep EmptyString) (Js.String_split sep s) = s.
Proof.
  unfold Js.String_split.
  induction s as [| a s IH]; simpl; [reflexivity |].
  destruct (Js.split_pieces sep s) as [p ps].
  destruct (Ascii.eqb_spec a sep) as [-> | Hne].
  - change (Js.Array_join (String sep "") ("" :: p :: ps))
      with (String sep (Js.Array_join (String sep "") (p :: ps))).
    now rewrite IH.
  - rewrite <- IH. destruct ps; reflexivity.
Qed.

Lemma String_split_length (sep : ascii) (s : string) :
  length (Js.String_split sep s) = S (count_char sep s).
Proof.
  unfold Js.String_split.
  induction s as [| a s IH]; simpl; [reflexivity |].
  destruct (Js.split_pieces sep s) as [p ps].
  destruct (Ascii.eqb a sep); simpl in *; now rewrite <- IH.
Qed.

Lemma String_split_pieces_clean (sep : ascii) (s : string) :
  forallb (Js.no_char sep) (Js.String_split sep s) = true.
Proof.
  unfold Js.String_split.
  induction s as [| a s IH]; simpl; [reflexivity |].
  destruct (Js.split_pieces sep s) as [p ps].
  destruct (Ascii.eqb a sep) eqn:Ha; simpl in *.
  - exact IH.
  - now rewrite Ha.
Qed.

(** X1: [scopesToString(stringToScopes(s))] is [s] for every string [s]:
    the pieces of the comma split, joined with commas, give the string
    back, empty pieces included. *)
Theorem scopesToString_stringToScopes (s : string) :
  scopesToString (stringToScopes s) = s.
Proof.
  unfold scopesToString, stringToScopes. apply join_split_pieces.
Qed.

(** X2: [stringToScopes(s)] has one member more than [s] has commas, so it
    is never empty, and no member holds a comma. *)
Theorem stringToScopes_shape (s : string) :
  length (stringToScopes s) = S (count_char "," s)
  /\ stringToScopes s <> []
  /\ forallb is_scope_identifier (stringToScopes s) = true.
Proof.
  unfold stringToScopes. split; [| split].
  - apply String_split_length.
  - intro Hnil. pose proof (String_split_length "," s) as Hlen.
    rewrite Hnil in Hlen. discriminate Hlen.
  - apply String_split_pieces_clean.
Qed.

(** ** More on the scope check *)

Lemma sent_changes (w : World) (r : Request) : sent w r <> w.
Proof.
  intro Heq. apply (f_equal (fun x => length (requests x))) in Heq.
  simpl in Heq. rewrite length_app in Heq. simpl in Heq. lia.
Qed.

(** X3: a grant that echoes the configured scopes is accepted: when the
    configured scopes are not empty and none holds a comma, a parameter
    object whose scope is [scopesToString] of them passes the check and
    the request of the exchange is sent. *)
Theorem echoed_scopes_are_accepted `{Platform}
    (w : World) (param_object : ParamObject) (requested : list Scope) :
  scopes (config (this w)) = Some requested ->
  requested <> [] ->
  forallb is_scope_identifier requested = true ->
  scope param_object = scopesToString requested ->
  snd (getTokenFromObject param_object w)
  = sent w (token_request (config (this w)) param_object).
Proof.
  intros Hcfg Hne Hids Hscope.
  apply getTokenFromObject_agree_requests with (requested := requested);
    [exact Hcfg |].
  rewrite Hscope. unfold stringToScopes, scopesToString.
  rewrite (String_split_join "," requested Hne Hids).
  split; [reflexivity | auto].
Qed.

Lemma echoed_scopes_are_accepted_witness :
  snd (getTokenFromObject (H := Reference.platform)
         {| code := "abc"; state := "x"; scope := "read,activity:read_all" |}
         (start Reference.client))
  = sent (start Reference.client)
      (token_request (config Reference.client)
         {| code := "abc"; state := "x"; scope := "read,activity:read_all" |}).
Proof.
  apply (echoed_scopes_are_accepted (H := Reference.platform)
           (start Reference.client)
           {| code := "abc"; state := "x"; scope := "read,activity:read_all" |}
           ["read"; "activity:read_all"] eq_refl).
  - discriminate.
  - reflexivity.
  - reflexivity.
Defined.

(** X4: a client configured with the empty list of scopes accepts no
    grant: whatever the scope string of the parameter object, also the
    empty one, [getTokenFromObject] throws the scope error and sends
    nothing, because the split of a string is never empty. *)
Theorem empty_configuration_rejects_all `{Platform}
    (w : World) (param_object : ParamObject) :
  scopes (config (this w)) = Some [] ->
  getTokenFromObject param_object w
  = (Throw (Error ("Requested scopes  not granted. Got: " ++ scope param_object)), w).
Proof.
  intro Hcfg.
  rewrite (getTokenFromObject_mismatch w param_object [] Hcfg).
  - unfold scope_error. rewrite Hcfg. simpl.
    change (Js.Array_join "," (stringToScopes (scope param_object)))
      with (Js.Array_join (String "," EmptyString)
              (Js.String_split "," (scope param_object))).
    now rewrite join_split_pieces.
  - intros [Hlen _]. unfold stringToScopes in Hlen.
    rewrite String_split_length in Hlen. discriminate Hlen.
Qed.

Lemma empty_configuration_rejects_all_witness :
  getTokenFromObject (H := Reference.platform)
    {| code := "abc"; state := "x"; scope := "" |}
    {| this := {| config := Reference.configured_with [] |}; requests := [] |}
  = (Throw (Error "Requested scopes  not granted. Got: "),
     {| this := {| config := Reference.configured_with [] |}; requests := [] |}).
Proof.
  apply (empty_configuration_rejects_all (H := Reference.platform)
           {| this := {| config := Reference.configured_with [] |};
              requests := [] |}
           {| code := "abc"; state := "x"; scope := "" |} eq_refl).
Defined.

Lemma scopes_agree_permutation (requested granted : list Scope) :
  Permutation granted requested -> scopes_agree requested granted.
Proof.
  intro Hperm. split.
  - now apply Permutation_length.
  - intros g Hg. now apply (Permutation_in g Hperm).
Qed.

Lemma scopes_agree_nodup (requested granted : list Scope) :
  NoDup granted ->
  scopes_agree requested granted ->
  Permutation granted requested.
Proof.
  intros Hnodup [Hlen Hin].
  apply NoDup_Permutation_bis; [assumption | lia | exact Hin].
Qed.

Lemma scopes_agree_reorder (requested requested' granted granted' : list Scope) :
  Permutation requested requested' ->
  Permutation granted granted' ->
  scopes_agree requested granted ->
  scopes_agree requested' granted'.
Proof.
  intros Hr Hg [Hlen Hin]. split.
  - rewrite <- (Permutation_length Hr), <- (Permutation_length Hg). exact Hlen.
  - intros g Hg'. apply (Permutation_in g Hr), Hin.
    now apply (Permutation_in g (Permutation_sym Hg)).
Qed.

(** The request has gone out exactly when the scopes agree. *)
Lemma request_sent_iff_agree `{Platform}
    (w : World) (param_object : ParamObject) (requested : list Scope) :
  scopes (config (this w)) = Some requested ->
  snd (getTokenFromObject param_object w)
  = sent w (token_request (config (this w)) param_object)
  <-> scopes_agree requested (stringToScopes (scope param_object)).
Proof.
  intro Hcfg. split.
  - intro Hsent.
    destruct (scopes_agree_dec requested (stringToScopes (scope param_object)))
      as [Hagree | Hnot]; [assumption |].
    rewrite (getTokenFromObject_mismatch w param_object requested Hcfg Hnot) in Hsent.
    simpl in Hsent. symmetry in Hsent. now apply sent_changes in Hsent.
  - now apply getTokenFromObject_agree_requests.
Qed.

(** X5: every grant that is a permutation of the configured scopes passes
    the check, and a grant without duplicates passes only if it is a
    permutation of them: for such grants the check is equality up to
    order. *)
Theorem duplicate_free_grant_is_exact `{Platform}
    (w : World) (param_object : ParamObject) (requested : list Scope) :
  scopes (config (this w)) = Some requested ->
  let granted := stringToScopes (scope param_object) in
  let exchanged :=
    snd (getTokenFromObject param_object w)
    = sent w (token_request (config (this w)) param_object) in
  (Permutation granted requested -> exchanged)
  /\ (NoDup granted -> exchanged -> Permutation granted requested)
  /\ (NoDup granted -> exchanged -> NoDup requested).
Proof.
  intros Hcfg granted exchanged. subst exchanged.
  pose proof (request_sent_iff_agree w param_object requested Hcfg) as Hiff.
  split; [| split].
  - intro Hperm. apply Hiff. now apply scopes_agree_permutation.
  - intros Hnodup Hsent. apply scopes_agree_nodup; [assumption | now apply Hiff].
  - intros Hnodup Hsent.
    apply (Permutation_NoDup (l := granted)); [| assumption].
    apply scopes_agree_nodup; [assumption | now apply Hiff].
Qed.

Lemma duplicate_free_grant_is_exact_witness :
  snd (getTokenFromObject (H := Reference.platform)
         {| code := "abc"; state := "x"; scope := "activity:read_all,read" |}
         (start Reference.client))
  = sent (start Reference.client)
      (token_request (config Reference.client)
         {| code := "abc"; state := "x"; scope := "activity:read_all,read" |}).
Proof.
  apply (proj1 (duplicate_free_grant_is_exact (H := Reference.platform)
                  (start Reference.client)
                  {| code := "abc"; state := "x"; scope := "activity:read_all,read" |}
                  ["read"; "activity:read_all"] eq_refl)).
  apply perm_swap.
Defined.

(** X6: the scope check does not look at the order of either side: with
    configured scopes that are permutations of each other and grants that
    are permutations of each other, one call stops at the check, leaving
    its state as it was, exactly when the other does. *)
Theorem scope_check_ignores_order `{Platform}
    (w w' : World) (p p' : ParamObject) (requested requested' : list Scope) :
  scopes (config (this w)) = Some requested ->
  scopes (config (this w')) = Some requested' ->
  Permutation requested requested' ->
  Permutation (stringToScopes (scope p)) (stringToScopes (scope p')) ->
  (snd (getTokenFromObject p w) = w <-> snd (getTokenFromObject p' w') = w')
  /\ (snd (getTokenFromObject p w) = sent w (token_request (config (this w)) p)
      <-> snd (getTokenFromObject p' w')
          = sent w' (token_request (config (this w')) p')).
Proof.
  intros Hcfg Hcfg' Hr Hg.
  assert (Hagree : scopes_agree requested (stringToScopes (scope p))
                   <-> scopes_agree requested' (stringToScopes (scope p'))).
  { split; apply scopes_agree_reorder;
      assumption || now apply Permutation_sym. }
  assert (Hstop : forall v q R,
            scopes (config (this v)) = Some R ->
            (snd (getTokenFromObject q v) = v
             <-> ~ scopes_agree R (stringToScopes (scope q)))).
  { intros v q R HR. split.
    - intros Hsame Hyes.
      rewrite (getTokenFromObject_agree_requests v q R HR Hyes) in Hsame.
      now apply sent_changes in Hsame.
    - intro Hnot. now rewrite (getTokenFromObject_mismatch v q R HR Hnot). }
  split.
  - rewrite (Hstop w p requested Hcfg), (Hstop w' p' requested' Hcfg').
    now rewrite Hagree.
  - rewrite (request_sent_iff_agree w p requested Hcfg),
      (request_sent_iff_agree w' p' requested' Hcfg').
    exact Hagree.
Qed.

Lemma scope_check_ignores_order_witness :
  snd (getTokenFromObject (H := Reference.platform)
         {| code := "abc"; state := "x"; scope := "read,activity:read_all" |}
         (start Reference.client))
  = sent (start Reference.client)
      (token_request (config Reference.client)
         {| code := "abc"; state := "x"; scope := "read,activity:read_all" |})
  <-> snd (getTokenFromObject (H := Reference.platform)
             {| code := "abc"; state := "x"; scope := "activity:read_all,read" |}
             (start {| config := Reference.configured_with ["activity:read_all"; "read"] |}))
      = sent (start {| config := Reference.configured_with ["activity:read_all"; "read"] |})
          (token_request (Reference.configured_with ["activity:read_all"; "read"])
             {| code := "abc"; state := "x"; scope := "activity:read_all,read" |}).
Proof.
  apply (proj2 (scope_check_ignores_order (H := Reference.platform)
                  (start Reference.client)
                  (start {| config := Reference.configured_with ["activity:read_all"; "read"] |})
                  {| code := "abc"; state := "x"; scope := "read,activity:read_all" |}
                  {| code := "abc"; state := "x"; scope := "activity:read_all,read" |}
                  ["read"; "activity:read_all"] ["activity:read_all"; "read"]
                  eq_refl eq_refl (perm_swap _ _ _) (perm_swap _ _ _))).
Defined.

(** ** What the exchange reads and what it returns *)

(** X7: [getTokenFromObject] never reads the [state] of the parameter
    object: two objects with the same [code] and [scope] give the same
    outcome, the same request included, whatever their [state]. *)
Theorem state_is_not_read `{Platform} (w : World) (p p' : ParamObject) :
  code p = code p' ->
  scope p = scope p' ->
  getTokenFromObject p w = getTokenFromObject p' w.
Proof.
  intros Hcode Hscope.
  unfold getTokenFromObject, token_request_body.
  now rewrite Hcode, Hscope.
Qed.

Lemma state_is_not_read_witness :
  getTokenFromObject (H := Reference.platform)
    {| code := "abc"; state := "expected"; scope := "read,activity:read_all" |}
    (start Reference.client)
  = getTokenFromObject (H := Reference.platform)
      {| code := "abc"; state := "forged"; scope := "read,activity:read_all" |}
      (start Reference.client).
Proof.
  exact (state_is_not_read (H := Reference.platform) (start Reference.client)
           {| code := "abc"; state := "expected"; scope := "read,activity:read_all" |}
           {| code := "abc"; state := "forged"; scope := "read,activity:read_all" |}
           eq_refl eq_refl).
Defined.

(** X8: once the scope check has passed, the outcome is the
    collaborators': an error thrown by [axios.post] is thrown on as it
    is, an error thrown by [assertValidTokenResponse] is thrown on as it
    is, and otherwise the token carries the six fields of the response
    unchanged; in each case the request has been sent once and is not
    repeated. *)
Theorem exchange_hands_on_the_answer `{Platform}
    (w : World) (param_object : ParamObject) (requested : list Scope) :
  scopes (config (this w)) = Some requested ->
  scopes_agree requested (stringToScopes (scope param_object)) ->
  let r := token_request (config (this w)) param_object in
  (forall e, axios_post (requests w) r = Throw e ->
             getTokenFromObject param_object w = (Throw e, sent w r))
  /\ (forall d e, axios_post (requests w) r = Ok d ->
                  assertValidTokenResponse d = Throw e ->
                  getTokenFromObject param_object w = (Throw e, sent w r))
  /\ (forall d t, axios_post (requests w) r = Ok d ->
                  assertValidTokenResponse d = Ok t ->
                  exists token,
                    getTokenFromObject param_object w = (Ok token, sent w r)
                    /\ tok_token_type _ token = token_type t
                    /\ tok_expires_at _ token = expires_at t
                    /\ tok_expires_in _ token = expires_in t
                    /\ tok_refresh_token _ token = refresh_token t
                    /\ tok_access_token _ token = access_token t
                    /\ tok_athlete _ token = athlete t).
Proof.
  intros Hcfg Hagree r.
  pose proof (getTokenFromObject_agree w param_object requested Hcfg Hagree) as Hrun.
  cbv zeta in Hrun. fold r in Hrun.
  split; [| split].
  - intros e He. now rewrite Hrun, He.
  - intros d e Hd He. now rewrite Hrun, Hd, He.
  - intros d t Hd Ht. rewrite Hrun, Hd, Ht.
    eexists. split; [reflexivity |]. repeat split.
Qed.

Lemma exchange_hands_on_the_answer_witness :
  exists token,
    getTokenFromObject (H := Reference.platform)
      {| code := "abc"; state := "x"; scope := "read,activity:read_all" |}
      (start Reference.client)
    = (Ok token,
       sent (start Reference.client)
         (token_request (config Reference.client)
            {| code := "abc"; state := "x"; scope := "read,activity:read_all" |}))
    /\ tok_token_type _ token = "Bearer"
    /\ tok_expires_at _ token = 1700000000%Z
    /\ tok_expires_in _ token = 21600%Z
    /\ tok_refresh_token _ token = "r1"
    /\ tok_access_token _ token = "a1"
    /\ tok_athlete _ token = 42%nat.
Proof.
  assert (Hagree : scopes_agree ["read"; "activity:read_all"]
                     (stringToScopes "read,activity:read_all")).
  { split; [reflexivity | auto]. }
  exact (proj2 (proj2
           (exchange_hands_on_the_answer (H := Reference.platform)
              (start Reference.client)
              {| code := "abc"; state := "x"; scope := "read,activity:read_all" |}
              ["read"; "activity:read_all"] eq_refl Hagree))
           Reference.answer Reference.answer eq_refl eq_refl).
Defined.

(** X9: two exchanges in a row on one client are independent: when both
    pass the scope check, each sends its own request, the second after
    the first, also when both carry the same code; nothing is remembered
    from one call to the next. *)
Theorem exchanges_do_not_share `{Platform}
    (w : World) (p1 p2 : ParamObject) (requested : list Scope) :
  scopes (config (this w)) = Some requested ->
  scopes_agree requested (stringToScopes (scope p1)) ->
  scopes_agree requested (stringToScopes (scope p2)) ->
  let w1 := snd (getTokenFromObject p1 w) in
  let w2 := snd (getTokenFromObject p2 w1) in
  requests w2
  = (requests w
     ++ [token_request (config (this w)) p1; token_request (config (this w)) p2])%list
  /\ this w2 = this w.
Proof.
  intros Hcfg H1 H2 w1 w2.
  assert (Hw1 : w1 = sent w (token_request (config (this w)) p1)).
  { subst w1. now apply getTokenFromObject_agree_requests with (requested := requested). }
  assert (Hw2 : w2 = sent w1 (token_request (config (this w1)) p2)).
  { subst w2. apply getTokenFromObject_agree_requests with (requested := requested);
      [| assumption].
    rewrite Hw1. exact Hcfg. }
  rewrite Hw2, Hw1. simpl. split; [| reflexivity].
  now rewrite <- app_assoc.
Qed.

Lemma exchanges_do_not_share_witness :
  length
    (requests
       (snd (getTokenFromObject (H := Reference.platform)
               {| code := "abc"; state := "x"; scope := "read,activity:read_all" |}
               (snd (getTokenFromObject (H := Reference.platform)
                       {| code := "abc"; state := "x"; scope := "read,activity:read_all" |}
                       (start Reference.client))))))
  = 2.
Proof.
  assert (Hagree : scopes_agree ["read"; "activity:read_all"]
                     (stringToScopes "read,activity:read_all")).
  { split; [reflexivity | auto]. }
  rewrite (proj1 (exchanges_do_not_share (H := Reference.platform)
                    (start Reference.client)
                    {| code := "abc"; state := "x"; scope := "read,activity:read_all" |}
                    {| code := "abc"; state := "x"; scope := "read,activity:read_all" |}
                    ["read"; "activity:read_all"] eq_refl Hagree Hagree)).
  reflexivity.
Defined.

(** ** More on the constructor *)

Lemma spread_twice (defaults overrides : ClientConfig) :
  spread defaults (spread defaults overrides) = spread defaults overrides.
Proof.
  unfold spread. simpl.
  destruct (clientId overrides), (clientSecret overrides), (redirectUri overrides),
    (authorizationUri overrides), (tokenUri overrides), (scopes overrides);
    simpl; f_equal;
    repeat match goal with
           | |- context [spread_property ?d ?d] =>
               replace (spread_property d d) with d by (now destruct d)
           end; reflexivity.
Qed.

Lemma constructor_inv `{Platform} (supplied : ClientConstructorConfig) (c : Client) :
  constructor supplied = Ok c ->
  validateConfig supplied = Ok true /\ c = {| config := spread defaultConfig supplied |}.
Proof.
  unfold constructor. intro Hnew.
  destruct (validateConfig_cases supplied)
    as [[_ Hrun] | [[_ [_ Hrun]] | [_ [_ Hrun]]]];
    rewrite Hrun in Hnew; try discriminate Hnew.
  injection Hnew as <-. now split.
Qed.

(** X10: the configuration of a constructed client constructs the same
    client again, and when the caller supplies all six properties the
    client holds exactly the supplied configuration, the defaults playing
    no part. *)
Theorem constructor_is_stable `{Platform}
    (supplied : ClientConstructorConfig) (c : Client) :
  constructor supplied = Ok c ->
  constructor (config c) = Ok c
  /\ (clientId supplied <> None -> clientSecret supplied <> None ->
      redirectUri supplied <> None -> authorizationUri supplied <> None ->
      tokenUri supplied <> None -> scopes supplied <> None ->
      config c = supplied).
Proof.
  intro Hnew. destruct (constructor_inv supplied c Hnew) as [Hvalid ->].
  split.
  - unfold constructor. simpl.
    assert (Hsame : validateConfig (spread defaultConfig supplied)
                    = validateConfig supplied).
    { unfold validateConfig in *. unfold spread. simpl.
      destruct (clientId supplied) as [i |]; [| discriminate Hvalid].
      unfold spread_property at 1.
      destruct (falsy_id (Some i)); [discriminate Hvalid |].
      destruct (clientSecret supplied) as [s |]; [reflexivity | discriminate Hvalid]. }
    rewrite Hsame, Hvalid. now rewrite spread_twice.
  - intros Hi Hs Hr Ha Ht Hsc. simpl.
    destruct supplied as [i s r a t sc]. simpl in *. unfold spread. simpl.
    destruct i, s, r, a, t, sc; try contradiction; reflexivity.
Qed.

Lemma constructor_is_stable_witness :
  constructor (H := Reference.platform) (config Reference.client)
  = Ok Reference.client.
Proof.
  exact (proj1 (constructor_is_stable (H := Reference.platform)
                  Reference.caller Reference.client eq_refl)).
Defined.

(** ** More on the authorization URI *)

(** X11: on a constructed client [getAuthorizationUri] returns a URI
    exactly when the platform parses the [authorizationUri] of the merged
    configuration and the merged configuration has [scopes]; in every
    other case it throws a [TypeError]; the [clientId] cannot be the
    cause, the constructor having checked it. *)
Theorem getAuthorizationUri_succeeds_iff `{Platform}
    (supplied : ClientConstructorConfig) (c : Client) (w : World) :
  constructor supplied = Ok c ->
  this w = c ->
  ((exists s, fst (getAuthorizationUri w) = Ok s)
   <-> (exists u,
          Url.new_URL url_resolve (to_USVString (authorizationUri (config c))) None
          = Ok u)
       /\ exists l, scopes (config c) = Some l)
  /\ (forall e, fst (getAuthorizationUri w) = Throw e -> e = TypeError).
Proof.
  intros Hnew Hw. destruct (constructor_inv supplied c Hnew) as [Hvalid Hc].
  assert (Hid : exists i, clientId (config c) = Some i).
  { rewrite Hc. simpl. unfold validateConfig in Hvalid.
    destruct (clientId supplied) as [i |]; [now exists i | discriminate Hvalid]. }
  destruct Hid as [i Hi].
  unfold getAuthorizationUri, bind, this_config, lift, ret, throw.
  rewrite Hw, Hi.
  destruct (Url.new_URL url_resolve (to_USVString (authorizationUri (config c))) None)
    as [u | e] eqn:Hu.
  - destruct (scopes (config c)) as [l |] eqn:Hl; simpl.
    + split.
      * split; [intros _; split; eauto | intros _; eauto].
      * intros e He. discriminate He.
    + split.
      * split; [intros [s Hs]; discriminate Hs | intros [_ [l Hl']]; discriminate Hl'].
      * intros e He. now injection He as <-.
  - simpl. split.
    + split; [intros [s Hs]; discriminate Hs | intros [[u Hu'] _]; discriminate Hu'].
    + intros e' He. injection He as <-.
      unfold Url.new_URL in Hu.
      destruct (Url.parse url_resolve _ None); [discriminate Hu |].
      now injection Hu as <-.
Qed.

Lemma getAuthorizationUri_succeeds_iff_witness :
  exists s,
    fst (getAuthorizationUri (H := Reference.platform) (start Reference.client)) = Ok s.
Proof.
  apply (proj1 (getAuthorizationUri_succeeds_iff (H := Reference.platform)
                  Reference.caller Reference.client (start Reference.client)
                  eq_refl eq_refl)).
  split; eexists; reflexivity.
Defined.



(** ** More on the callback *)

(** X13: [getToken] reaches the network exactly when the platform parses
    the callback URL, [assertIsParamObj] accepts the parameters read from
    it, the client has scopes configured and the granted scopes agree
    with them; in every other case it ends with the state as it was, no
    request sent. *)
Theorem getToken_reaches_network_iff `{Platform} (req_url : string) (w : World) :
  ((exists r, snd (getToken req_url w) = sent w r)
   <-> exists u param_object requested,
         Url.new_URL url_resolve req_url (Some PLACEHOLDER_URL) = Ok u
         /\ assertIsParamObj (paramObject_of u) = Ok param_object
         /\ scopes (config (this w)) = Some requested
         /\ scopes_agree requested (stringToScopes (scope param_object)))
  /\ ((forall r, snd (getToken req_url w) <> sent w r) ->
      snd (getToken req_url w) = w).
Proof.
  assert (Hstay : forall v : World, (exists r, v = sent v r) -> False).
  { intros v [r Hr]. symmetry in Hr. now apply sent_changes in Hr. }
  unfold getToken, getToken_with_base, bind, lift, ret, throw.
  destruct (Url.new_URL url_resolve req_url (Some PLACEHOLDER_URL)) as [u | e] eqn:Hu.
  - destruct (assertIsParamObj (paramObject_of u)) as [p | e] eqn:Hp.
    + destruct (scopes (config (this w))) as [requested |] eqn:Hcfg.
      * destruct (scopes_agree_dec requested (stringToScopes (scope p)))
          as [Hagree | Hnot].
        -- rewrite (getTokenFromObject_agree_requests w p requested Hcfg Hagree).
           split.
           ++ split; [| intros _; eauto].
              intros _. exists u, p, requested.
              split; [reflexivity | split; [exact Hp | split; [reflexivity |]]].
              exact Hagree.
           ++ intro Hnever. exfalso.
              now apply (Hnever (token_request (config (this w)) p)).
        -- rewrite (getTokenFromObject_mismatch w p requested Hcfg Hnot). simpl.
           split; [| reflexivity].
           split; [intro Hr; now apply Hstay in Hr |].
           intros [u' [p' [R' [Hu' [Hp' [HR' Hagree']]]]]].
           injection Hu' as <-. rewrite Hp in Hp'.
           injection Hp' as <-. injection HR' as <-. contradiction.
      * assert (Hrun : snd (getTokenFromObject p w) = w).
        { unfold getTokenFromObject, bind, this_config, throw. now rewrite Hcfg. }
        rewrite Hrun. split; [| reflexivity].
        split; [intro Hr; now apply Hstay in Hr |].
        intros [u' [p' [R' [_ [_ [HR' _]]]]]]. discriminate HR'.
    + simpl. split; [| reflexivity].
      split; [intro Hr; now apply Hstay in Hr |].
      intros [u' [p' [R' [Hu' [Hp' _]]]]]. injection Hu' as <-.
      rewrite Hp in Hp'. discriminate Hp'.
  - simpl. split; [| reflexivity].
    split; [intro Hr; now apply Hstay in Hr |].
    intros [u' [p' [R' [Hu' _]]]]. discriminate Hu'.
Qed.

(** X14: [getToken] does not look at what stands before the question
    mark of the callback URL: two URLs with the same query, whose parts
    before it the platform resolves, end alike, whatever their paths and
    hosts. *)
Theorem getToken_ignores_the_path `{Platform}
    (P1 P2 Q : string) (w : World) (placeholder : Url.URL) (r1 r2 : Url.Resolved) :
  plain_reference P1 = true ->
  plain_reference P2 = true ->
  Url.parse url_resolve PLACEHOLDER_URL None = Some placeholder ->
  url_resolve P1 (Some (Url.prefix placeholder)) = Some r1 ->
  url_resolve P2 (Some (Url.prefix placeholder)) = Some r2 ->
  getToken (P1 ++ "?" ++ Q) w = getToken (P2 ++ "?" ++ Q) w.
Proof.
  intros HP1 HP2 Hbase Hr1 Hr2. unfold getToken.
  change (P1 ++ "?" ++ Q) with (P1 ++ String "?" Q).
  change (P2 ++ "?" ++ Q) with (P2 ++ String "?" Q).
  rewrite (getToken_with_base_reference PLACEHOLDER_URL P1 Q placeholder r1 HP1 Hbase Hr1).
  now rewrite (getToken_with_base_reference PLACEHOLDER_URL P2 Q placeholder r2 HP2 Hbase Hr2).
Qed.

Lemma getToken_ignores_the_path_witness :
  getToken (H := Reference.platform)
    "/callback?state=x&code=abc&scope=read,activity:read_all"
    (start Reference.client)
  = getToken (H := Reference.platform)
      "https://elsewhere.example/not/the/redirect?state=x&code=abc&scope=read,activity:read_all"
      (start Reference.client).
Proof.
  exact (getToken_ignores_the_path (H := Reference.platform)
           "/callback" "https://elsewhere.example/not/the/redirect"
           "state=x&code=abc&scope=read,activity:read_all"
           (start Reference.client)
           {| Url.prefix := "http://localhost/";
              Url.searchParams := [];
              Url.fragment := None |}
           {| Url.resolved_prefix := "http://localhost/callback";
              Url.keeps_base_query := false |}
           {| Url.resolved_prefix := "https://elsewhere.example/not/the/redirect";
              Url.keeps_base_query := false |}
           eq_refl eq_refl eq_refl eq_refl eq_refl).
Defined.

(** X15: the methods do not disturb each other: after a call of
    [getToken], whatever its outcome, and after a call of
    [getAuthorizationUri], [getAuthorizationUri] returns what it returned
    before; asking for the URI any number of times adds no parameter to
    it. *)
Theorem getAuthorizationUri_is_repeatable `{Platform} (w : World) (req_url : string) :
  fst (getAuthorizationUri (snd (getToken req_url w))) = fst (getAuthorizationUri w)
  /\ fst (getAuthorizationUri (snd (getAuthorizationUri w)))
     = fst (getAuthorizationUri w)
  /\ getToken req_url (snd (getAuthorizationUri w)) = getToken req_url w.
Proof.
  split; [| split].
  - apply getAuthorizationUri_pure. now rewrite getToken_this.
  - now rewrite getAuthorizationUri_state.
  - now rewrite getAuthorizationUri_state.
Qed.

Lemma all_chars_app (f : ascii -> bool) (s t : string) :
  Js.all_chars f (s ++ t) = Js.all_chars f s && Js.all_chars f t.
Proof.
  induction s as [| a s IH]; simpl; [reflexivity |].
  rewrite IH. now rewrite andb_assoc.
Qed.

Lemma query_char_inv (c : ascii) :
  query_char c = true ->
  Url.is_c0_or_space c = false /\ Ascii.eqb c "#" = false.
Proof.
  unfold query_char. intro Hc. apply andb_prop in Hc as [Hs Hh].
  split; now apply negb_true_iff.
Qed.

(** A query made of [query_char]s is read as it is written. *)
Lemma callback_query_plain (X : string) :
  Js.all_chars query_char X = true -> callback_query X = X.
Proof.
  intro HX. unfold callback_query.
  assert (Htrail : Url.strip_trailing X = X).
  { induction X as [| c X IH]; [reflexivity |].
    simpl in HX. apply andb_prop in HX as [Hc HX].
    apply query_char_inv in Hc as [Hc _].
    rewrite strip_trailing_cons by assumption. now rewrite IH. }
  assert (Hkeep : Url.remove_tab_newline X = X).
  { clear Htrail. induction X as [| c X IH]; [reflexivity |].
    simpl in HX. apply andb_prop in HX as [Hc HX].
    apply query_char_inv in Hc as [Hc _].
    simpl. rewrite (tab_or_newline_is_c0 c Hc). now rewrite IH. }
  assert (Hhash : Js.no_char "#" X = true).
  { clear Htrail Hkeep. induction X as [| c X IH]; [reflexivity |].
    simpl in HX. apply andb_prop in HX as [Hc HX].
    apply query_char_inv in Hc as [_ Hh]. simpl. now rewrite Hh, IH. }
  rewrite Htrail, Hkeep. now rewrite (cut_at_whole "#" X Hhash).
Qed.

Lemma searchParams_lookup_app (l1 l2 : list (string * string)) (name v : string) :
  Url.searchParams_lookup l1 name = Some v ->
  Url.searchParams_lookup (l1 ++ l2)%list name = Some v.
Proof.
  induction l1 as [| [n x] l1 IH]; simpl; intro Hfound.
  - discriminate Hfound.
  - destruct (String.eqb n name); [assumption | now apply IH].
Qed.

(** X16: parameters added after a complete callback query cannot take
    the place of its [state], [code] or [scope]: [getToken] reads the
    first occurrence of each, so a query that holds all three gives the
    same outcome with anything appended behind an ampersand. *)
Theorem later_parameters_do_not_override `{Platform}
    (P Q Q' st c sc : string) (w : World)
    (placeholder : Url.URL) (r : Url.Resolved) :
  plain_reference P = true ->
  Url.parse url_resolve PLACEHOLDER_URL None = Some placeholder ->
  url_resolve P (Some (Url.prefix placeholder)) = Some r ->
  Js.all_chars query_char Q = true ->
  Js.all_chars query_char Q' = true ->
  params_of_query Q
  = {| raw_state := Some st; raw_code := Some c; raw_scope := Some sc |} ->
  params_of_query (Q ++ "&" ++ Q') = params_of_query Q
  /\ getToken (P ++ "?" ++ Q ++ "&" ++ Q') w = getToken (P ++ "?" ++ Q) w.
Proof.
  intros HP Hbase Hr HQ HQ' Hall.
  assert (Hparams : params_of_query (Q ++ "&" ++ Q') = params_of_query Q).
  { rewrite Hall. unfold params_of_query in *.
    rewrite callback_query_plain in Hall by assumption.
    rewrite callback_query_plain
      by (rewrite all_chars_app, HQ; simpl; exact HQ').
    rewrite urlencoded_parse_app.
    injection Hall as Hst Hc Hsc.
    now rewrite (searchParams_lookup_app _ _ _ _ Hst),
      (searchParams_lookup_app _ _ _ _ Hc), (searchParams_lookup_app _ _ _ _ Hsc). }
  split; [exact Hparams |].
  unfold getToken.
  change (P ++ "?" ++ Q ++ "&" ++ Q') with (P ++ String "?" (Q ++ "&" ++ Q')).
  change (P ++ "?" ++ Q) with (P ++ String "?" Q).
  rewrite (getToken_with_base_reference PLACEHOLDER_URL P (Q ++ "&" ++ Q')
             placeholder r HP Hbase Hr).
  rewrite (getToken_with_base_reference PLACEHOLDER_URL P Q placeholder r HP Hbase Hr).
  now rewrite Hparams.
Qed.

Lemma later_parameters_do_not_override_witness :
  getToken (H := Reference.platform)
    "/callback?state=x&code=abc&scope=read,activity:read_all&scope=read&code=other"
    (start Reference.client)
  = getToken (H := Reference.platform)
      "/callback?state=x&code=abc&scope=read,activity:read_all"
      (start Reference.client).
Proof.
  exact (proj2 (later_parameters_do_not_override (H := Reference.platform)
                  "/callback" "state=x&code=abc&scope=read,activity:read_all"
                  "scope=read&code=other" "x" "abc" "read,activity:read_all"
                  (start Reference.client)
                  {| Url.prefix := "http://localhost/";
                     Url.searchParams := [];
                     Url.fragment := None |}
                  {| Url.resolved_prefix := "http://localhost/callback";
                     Url.keeps_base_query := false |}
                  eq_refl eq_refl eq_refl eq_refl eq_refl eq_refl)).
Defined.

Lemma encode_query_chars (s : string) :
  Js.all_chars query_char (Url.urlencoded_encode s) = true.
Proof.
  induction s as [| c s IH]; [reflexivity |].
  each_byte c; simpl; exact IH.
Qed.

Lemma serialize_query_chars (l : list (string * string)) :
  Js.all_chars query_char (Url.urlencoded_serialize l) = true.
Proof.
  unfold Url.urlencoded_serialize.
  induction l as [| p l IH]; [reflexivity |].
  assert (Hp : Js.all_chars query_char (Url.urlencoded_pair p) = true).
  { unfold Url.urlencoded_pair. rewrite !all_chars_app, !encode_query_chars.
    reflexivity. }
  destruct l as [| q l]; [exact Hp |].
  change (Js.Array_join "&" (map Url.urlencoded_pair (p :: q :: l)))
    with (Url.urlencoded_pair p ++ "&"
          ++ Js.Array_join "&" (map Url.urlencoded_pair (q :: l))).
  rewrite !all_chars_app, Hp, IH. reflexivity.
Qed.

Lemma encoded_callback_params (st c sc : string) :
  Url.well_formed st = true ->
  Url.well_formed c = true ->
  Url.well_formed sc = true ->
  params_of_query (callback_of st c sc)
  = {| raw_state := Some st; raw_code := Some c; raw_scope := Some sc |}.
Proof.
  intros Hst Hc Hsc. unfold params_of_query, callback_of.
  rewrite callback_query_plain by apply serialize_query_chars.
  rewrite urlencoded_parse_serialize; [reflexivity |].
  simpl. unfold well_formed_pair. simpl. now rewrite Hst, Hc, Hsc.
Qed.

(** X17: a callback query that carries [state], [code] and [scope]
    form-urlencoded is read back exactly: whatever characters the three
    values hold (commas, colons, ampersands, spaces, percent signs),
    [getToken] hands the decoded values to [assertIsParamObj] and goes on
    with what it returns, so an encoded scope list is compared in its
    decoded form. *)
Theorem encoded_callback_is_decoded `{Platform}
    (P st c sc : string) (w : World) (placeholder : Url.URL) (r : Url.Resolved) :
  plain_reference P = true ->
  Url.parse url_resolve PLACEHOLDER_URL None = Some placeholder ->
  url_resolve P (Some (Url.prefix placeholder)) = Some r ->
  Url.well_formed st = true ->
  Url.well_formed c = true ->
  Url.well_formed sc = true ->
  params_of_query (callback_of st c sc)
  = {| raw_state := Some st; raw_code := Some c; raw_scope := Some sc |}
  /\ getToken (P ++ "?" ++ callback_of st c sc) w
     = (param_object <-
          lift (assertIsParamObj
                  {| raw_state := Some st; raw_code := Some c; raw_scope := Some sc |}) ;;
        getTokenFromObject param_object) w.
Proof.
  intros HP Hbase Hr Hst Hc Hsc.
  pose proof (encoded_callback_params st c sc Hst Hc Hsc) as Hparams.
  split; [exact Hparams |].
  unfold getToken.
  change (P ++ "?" ++ callback_of st c sc)
    with (P ++ String "?" (callback_of st c sc)).
  rewrite (getToken_with_base_reference PLACEHOLDER_URL P _ placeholder r HP Hbase Hr).
  now rewrite Hparams.
Qed.

Lemma encoded_callback_is_decoded_witness :
  params_of_query "state=a%26b&code=x+y%25&scope=read%2Cactivity%3Aread_all"
  = {| raw_state := Some "a&b";
       raw_code := Some "x y%";
       raw_scope := Some "read,activity:read_all" |}.
Proof.
  exact (proj1 (encoded_callback_is_decoded (H := Reference.platform)
                  "/callback" "a&b" "x y%" "read,activity:read_all"
                  (start Reference.client)
                  {| Url.prefix := "http://localhost/";
                     Url.searchParams := [];
                     Url.fragment := None |}
                  {| Url.resolved_prefix := "http://localhost/callback";
                     Url.keeps_base_query := false |}
                  eq_refl eq_refl eq_refl eq_refl eq_refl eq_refl)).
Defined.

(** X18: the round from the authorization URI to the exchange: when the
    callback carries the configured scopes as [getAuthorizationUri] sent
    them (joined with commas, form-urlencoded), with any state and code,
    and [assertIsParamObj] accepts those parameters, [getToken] passes
    the scope check and sends the request of the exchange with that
    code; the configured scopes must not be empty nor hold a comma. *)
Theorem echoed_callback_is_exchanged `{Platform}
    (P st c : string) (requested : list Scope) (w : World)
    (placeholder : Url.URL) (r : Url.Resolved) :
  plain_reference P = true ->
  Url.parse url_resolve PLACEHOLDER_URL None = Some placeholder ->
  url_resolve P (Some (Url.prefix placeholder)) = Some r ->
  scopes (config (this w)) = Some requested ->
  requested <> [] ->
  forallb is_scope_identifier requested = true ->
  Url.well_formed st = true ->
  Url.well_formed c = true ->
  Url.well_formed (scopesToString requested) = true ->
  let param_object :=
    {| code := c; state := st; scope := scopesToString requested |} in
  assertIsParamObj (raw_of param_object) = Ok param_object ->
  snd (getToken (P ++ "?" ++ callback_of st c (scopesToString requested)) w)
  = sent w (token_request (config (this w)) param_object).
Proof.
  intros HP Hbase Hr Hcfg Hne Hids Hst Hc Hsc param_object Haccept.
  unfold getToken.
  change (P ++ "?" ++ callback_of st c (scopesToString requested))
    with (P ++ String "?" (callback_of st c (scopesToString requested))).
  rewrite (getToken_with_base_reference PLACEHOLDER_URL P _ placeholder r HP Hbase Hr).
  rewrite (encoded_callback_params st c (scopesToString requested) Hst Hc Hsc).
  change {| raw_state := Some st; raw_code := Some c;
            raw_scope := Some (scopesToString requested) |}
    with (raw_of param_object).
  unfold bind. rewrite Haccept. simpl.
  apply getTokenFromObject_agree_requests with (requested := requested);
    [exact Hcfg |].
  simpl. unfold stringToScopes, scopesToString.
  rewrite (String_split_join "," requested Hne Hids).
  split; [reflexivity | auto].
Qed.

Lemma echoed_callback_is_exchanged_witness :
  snd (getToken (H := Reference.platform)
         "/callback?state=x&code=abc&scope=read%2Cactivity%3Aread_all"
         (start Reference.client))
  = sent (start Reference.client)
      (token_request (config Reference.client)
         {| code := "abc"; state := "x"; scope := "read,activity:read_all" |}).
Proof.
  apply (echoed_callback_is_exchanged (H := Reference.platform)
           "/callback" "x" "abc" ["read"; "activity:read_all"]
           (start Reference.client)
           {| Url.prefix := "http://localhost/";
              Url.searchParams := [];
              Url.fragment := None |}
           {| Url.resolved_prefix := "http://localhost/callback";
              Url.keeps_base_query := false |}
           eq_refl eq_refl eq_refl eq_refl).
  - discriminate.
  - reflexivity.
  - reflexivity.
  - reflexivity.
  - reflexivity.
  - reflexivity.
Defined.
